(** * Bambu Plate Analyzer: the pick-image extractor, the JPEG normalizer
      and the sensor's analysis pass

    A shallow embedding of
    [custom_components/bambu_plate_analyzer/sensor.py]:
    [compute_bounding_boxes], [convert_to_jpeg], the sensor's
    [_bbox_data_serialized] property and its [_process_plate_data] pass.

    Python dictionaries whose order is never observed ([bboxes],
    [seen_colors]) are [gmap]s; the dictionaries whose iteration order is
    observed ([objects_attr], [merged], [_objects]) are insertion-ordered
    association lists.  Python exceptions are the [Raised] case of
    [result]. *)

From Stdlib Require Import ZArith NArith Ascii String List Lia.
From stdpp Require Import base numbers option list strings pretty gmap fin_maps.

Open Scope Z_scope.

(** ** Exceptions and results *)

Inductive exn : Type :=
  | ValueError
  | TypeError
  | IndexError
  | AssertionError
  | UnidentifiedImageError
  | OSError.

Inductive result (A : Type) : Type :=
  | Ok (a : A)
  | Raised (e : exn).
Arguments Ok {A} a.
Arguments Raised {A} e.

#[global] Instance result_ret : MRet result := fun A a => Ok a.
#[global] Instance result_bind : MBind result := fun A B f m =>
  match m with
  | Ok a => f a
  | Raised e => Raised e
  end.

Definition is_Ok {A} (m : result A) : Prop := exists a, m = Ok a.

(** [for x in xs: st = body(st, x)], stopping at the first exception. *)
Fixpoint for_each {A S : Type} (xs : list A) (body : S -> A -> result S)
    (st : S) : result S :=
  match xs with
  | [] => Ok st
  | x :: xs' =>
      match body st x with
      | Ok st' => for_each xs' body st'
      | Raised e => Raised e
      end
  end.

(** [range(n)]: empty when [n <= 0]. *)
Definition range (n : Z) : list Z := seqZ 0 n.

(** ** Strings of integers *)

(** [str(n)] for a Python integer. *)
Definition str (n : Z) : string := pretty n.

Definition hex_digit (d : N) : ascii :=
  match d with
  | 0 => "0" | 1 => "1" | 2 => "2" | 3 => "3" | 4 => "4" | 5 => "5"
  | 6 => "6" | 7 => "7" | 8 => "8" | 9 => "9" | 10 => "A" | 11 => "B"
  | 12 => "C" | 13 => "D" | 14 => "E" | _ => "F"
  end%char%N.

Fixpoint hex_go (fuel : nat) (n : N) (acc : string) : string :=
  match fuel with
  | O => acc
  | S fuel' =>
      if (n =? 0)%N then acc
      else hex_go fuel' (n / 16)%N (String (hex_digit (n mod 16)%N) acc)
  end.

(** [f"{n:X}"] for [n >= 0]: upper-case hexadecimal, no prefix. *)
Definition format_X (n : N) : string :=
  if (n =? 0)%N then "0" else hex_go (N.size_nat n) n "".

Fixpoint zeros (k : nat) : string :=
  match k with
  | O => ""
  | S k' => String "0" (zeros k')
  end.

(** [f"{n:02X}"]: zero-padded on the left to a width of at least two. *)
Definition format_02X (n : N) : string :=
  let s := format_X n in zeros (2 - String.length s) +:+ s.

(** The value of a hexadecimal digit, either case, from its character
    code. *)
Definition hex_value (c : ascii) : option N :=
  let code := N_of_ascii c in
  if (48 <=? code)%N && (code <=? 57)%N then Some (code - 48)%N
  else if (65 <=? code)%N && (code <=? 70)%N then Some (code - 55)%N
  else if (97 <=? code)%N && (code <=? 102)%N then Some (code - 87)%N
  else None.

Fixpoint parse_hex_digits (s : string) (acc : N) : option N :=
  match s with
  | EmptyString => Some acc
  | String c s' =>
      match hex_value c with
      | Some d => parse_hex_digits s' (16 * acc + d)%N
      | None => None
      end
  end.

(** [int(s, 16)] on the literals the extractor builds: an optional [0x]
    prefix and then one or more hexadecimal digits; anything else is a
    [ValueError]. *)
Definition int_base16 (s : string) : result N :=
  let digits :=
    match s with
    | String "0" (String "x" rest) => rest
    | String "0" (String "X" rest) => rest
    | _ => s
    end in
  match digits with
  | EmptyString => Raised ValueError
  | _ =>
      match parse_hex_digits digits 0 with
      | Some n => Ok n
      | None => Raised ValueError
      end
  end.

(** [str(int(f"0x{b:02X}{g:02X}{r:02X}", 16))] *)
Definition identify_id_of (r g b : N) : result string :=
  n ← int_base16 ("0x" +:+ format_02X b +:+ format_02X g +:+ format_02X r);
  mret (str (Z.of_N n)).

(** The packing the upstream firmware convention prescribes. *)
Definition bgr_pack (r g b : N) : N := (b * 65536 + g * 256 + r)%N.


(** ** Raster images as Pillow hands them back *)

Abbreviation bytes := (list Byte.byte).

(** A value read from a pixel-access object: an integer for single-band
    modes ([L], [P], [I], ...), a tuple of channel values otherwise. *)
Inductive pixel : Type :=
  | Scalar (v : Z)
  | Bands (cs : list N).

#[global] Instance pixel_eq_dec : EqDecision pixel.
Proof. solve_decision. Defined.

#[global] Instance pixel_countable : Countable pixel :=
  inj_countable'
    (fun p => match p with Scalar v => inl v | Bands cs => inr cs end)
    (fun s => match s with inl v => Scalar v | inr cs => Bands cs end)
    (fun p => match p with Scalar _ => eq_refl | Bands _ => eq_refl end).

Record Image : Type := {
  im_mode : string;            (* image.mode *)
  im_size : Z * Z;             (* image.size = (width, height) *)
  im_load : Z -> Z -> pixel;   (* image.load()[x, y] *)
}.

(** [r, g, b, a = current_color] *)
Definition unpack4 (current_color : pixel) : result (N * N * N * N) :=
  match current_color with
  | Scalar _ => Raised TypeError
  | Bands [r; g; b; a] => Ok (r, g, b, a)
  | Bands _ => Raised ValueError
  end.

(** ** The extractor *)

Record scan_state : Type := {
  st_bboxes : gmap string (list Z);
  st_seen_colors : gmap pixel string;
}.

Definition scan_init : scan_state :=
  {| st_bboxes := ∅; st_seen_colors := ∅ |}.

(** [l[i]] *)
Definition list_get {A} (l : list A) (i : nat) : result A :=
  match l !! i with
  | Some v => Ok v
  | None => Raised IndexError
  end.

(** "Check if we already mapped this color": the identifier given to the
    colour, and the cache afterwards. *)
Definition lookup_color (seen_colors : gmap pixel string)
    (current_color : pixel) (r g b : N) : result (string * gmap pixel string) :=
  match seen_colors !! current_color with
  | Some identify_id => Ok (identify_id, seen_colors)
  | None =>
      identify_id ← identify_id_of r g b;
      mret (identify_id, <[current_color := identify_id]> seen_colors)
  end.

(** [if v < bbox[i]: bbox[i] = v] *)
Definition lower (i : nat) (v : Z) (bbox : list Z) : result (list Z) :=
  cur ← list_get bbox i;
  mret (if v <? cur then <[i := v]> bbox else bbox).

(** [if v > bbox[i]: bbox[i] = v] *)
Definition raise (i : nat) (v : Z) (bbox : list Z) : result (list Z) :=
  cur ← list_get bbox i;
  mret (if v >? cur then <[i := v]> bbox else bbox).

(** "Update bounding box" *)
Definition update_bbox (bboxes : gmap string (list Z)) (identify_id : string)
    (x y : Z) : result (gmap string (list Z)) :=
  match bboxes !! identify_id with
  | Some bbox =>
      bbox ← lower 0 x bbox;
      bbox ← lower 1 y bbox;
      bbox ← raise 2 x bbox;
      bbox ← raise 3 y bbox;
      mret (<[identify_id := bbox]> bboxes)
  | None => mret (<[identify_id := [x; y; x; y]]> bboxes)
  end.

(** The body of the inner loop, at column [x] of row [y]. *)
Definition scan_pixel (pixels : Z -> Z -> pixel) (y : Z) (st : scan_state)
    (x : Z) : result scan_state :=
  let current_color := pixels x y in
  '(r, g, b, a) ← unpack4 current_color;
  if (a =? 0)%N then mret st
  else
    '(identify_id, seen_colors) ←
      lookup_color (st_seen_colors st) current_color r g b;
    bboxes ← update_bbox (st_bboxes st) identify_id x y;
    mret {| st_bboxes := bboxes; st_seen_colors := seen_colors |}.

Record analysis : Type := {
  image_width : Z;
  image_height : Z;
  bboxes : gmap string (list Z);
}.

(** The extractor once the image is decoded. *)
Definition scan_image (image : Image) : result analysis :=
  let '(image_width, image_height) := im_size image in
  let pixels := im_load image in
  st ← for_each (range image_height)
         (fun st y => for_each (range image_width) (scan_pixel pixels y) st)
         scan_init;
  mret {| image_width := image_width;
          image_height := image_height;
          bboxes := st_bboxes st |}.

(** ** Pillow operations of the JPEG normalizer

    [Image.new], [split] and [paste] follow Pillow's libImaging: a paste
    through an 8-bit mask blends every channel with [BLEND8]. *)

Definition Image_new (mode : string) (size : Z * Z) (color : list N) : Image :=
  {| im_mode := mode; im_size := size; im_load := fun _ _ => Bands color |}.

Definition mode_bands (mode : string) : nat :=
  if decide (mode = "RGBA") then 4%nat
  else if decide (mode = "RGBa") then 4%nat
  else if decide (mode = "CMYK") then 4%nat
  else if decide (mode = "RGB") then 3%nat
  else if decide (mode = "LA") then 2%nat
  else if decide (mode = "PA") then 2%nat
  else 1%nat.

Definition band (k : nat) (image : Image) : Image :=
  {| im_mode := "L";
     im_size := im_size image;
     im_load := fun x y =>
       match im_load image x y with
       | Bands cs => Scalar (Z.of_N (default 0%N (cs !! k)))
       | Scalar v => Scalar v
       end |}.

(** [image.split()] *)
Definition split (image : Image) : list Image :=
  (fun k => band k image) <$> seq 0 (mode_bands (im_mode image)).

Definition DIV255 (a : N) : N :=
  let tmp := (a + 128)%N in N.shiftr (N.shiftr tmp 8 + tmp) 8.

Definition BLEND8 (mask in1 in2 : N) : N :=
  DIV255 (in1 * (255 - mask) + in2 * mask)%N.

Definition paste_pixel (dst src mask : pixel) : pixel :=
  match dst, src, mask with
  | Bands [dr; dg; db], Bands (r :: g :: b :: _), Scalar m =>
      let m := Z.to_N m in
      Bands [BLEND8 m dr r; BLEND8 m dg g; BLEND8 m db b]
  | _, _, _ => dst
  end.

(** [self.paste(im, mask=mask)] for images of one size. *)
Definition paste (self im mask : Image) : Image :=
  {| im_mode := im_mode self;
     im_size := im_size self;
     im_load := fun x y =>
       paste_pixel (im_load self x y) (im_load im x y) (im_load mask x y) |}.

(** Modes that carry an alpha band. *)
Definition has_alpha_channel (mode : string) : bool :=
  bool_decide (mode ∈ ["RGBA"; "LA"; "PA"; "RGBa"; "La"]).

Definition default_quality : Z := 80.

(** ** The sensor *)

(** [{"name": name}] with an optional ["bbox"] entry. *)
Record obj_data : Type := {
  name : string;
  bbox : option (list Z);
}.

(** [d[k] = v] on an insertion-ordered dictionary: an existing key keeps
    its place, a new one goes last. *)
Fixpoint dict_set {V} (k : string) (v : V) (d : list (string * V))
    : list (string * V) :=
  match d with
  | [] => [(k, v)]
  | (k', v') :: d' =>
      if decide (k = k') then (k', v) :: d' else (k', v') :: dict_set k v d'
  end.

Fixpoint dict_get {V} (k : string) (d : list (string * V)) : option V :=
  match d with
  | [] => None
  | (k', v') :: d' => if decide (k = k') then Some v' else dict_get k d'
  end.

(** "Merge bbox data with object names from printable_objects" *)
Definition merge (objects_attr : list (string * string))
    (bboxes : gmap string (list Z)) : list (string * obj_data) :=
  fold_left
    (fun merged '(identify_id, name) =>
       let obj_data :=
         match bboxes !! identify_id with
         | Some bbox => {| name := name; bbox := Some bbox |}
         | None => {| name := name; bbox := None |}
         end in
       dict_set identify_id obj_data merged)
    objects_attr [].

(** ["|".join(parts)] *)
Fixpoint join (sep : string) (parts : list string) : string :=
  match parts with
  | [] => ""
  | [p] => p
  | p :: rest => p +:+ sep +:+ join sep rest
  end.

(** One [parts.append(...)] of the serializer. *)
Definition serialize_object (identify_id : string) (obj_data : obj_data)
    : result string :=
  match bbox obj_data with
  | Some ((_ :: _) as bbox) =>
      b0 ← list_get bbox 0;
      b1 ← list_get bbox 1;
      b2 ← list_get bbox 2;
      b3 ← list_get bbox 3;
      mret (identify_id +:+ ":" +:+ name obj_data +:+ ":" +:+
            str b0 +:+ "," +:+ str b1 +:+ "," +:+ str b2 +:+ "," +:+ str b3)
  | _ => mret (identify_id +:+ ":" +:+ name obj_data +:+ ":")
  end.

Definition _bbox_data_serialized (_objects : list (string * obj_data))
    : result string :=
  match _objects with
  | [] => mret ""
  | _ =>
      parts ← for_each _objects
                (fun parts '(identify_id, obj_data) =>
                   part ← serialize_object identify_id obj_data;
                   mret (parts ++ [part]))
                [];
      mret (join "|" parts)
  end.

Record Sensor : Type := {
  _pick_image_entity_id : option string;
  _object_count : Z;
  _objects : list (string * obj_data);
  _image_width : Z;
  _image_height : Z;
}.

(** The sensor as [__init__] leaves it. *)
Definition Sensor_init : Sensor :=
  {| _pick_image_entity_id := None;
     _object_count := 0;
     _objects := [];
     _image_width := 0;
     _image_height := 0 |}.

Definition native_value (self : Sensor) : Z := _object_count self.

Record attributes : Type := {
  attr_image_width : Z;
  attr_image_height : Z;
  attr_objects : list (string * obj_data);
  attr_bbox_data : string;
}.

Definition extra_state_attributes (self : Sensor) : result attributes :=
  bbox_data ← _bbox_data_serialized (_objects self);
  mret {| attr_image_width := _image_width self;
          attr_image_height := _image_height self;
          attr_objects := _objects self;
          attr_bbox_data := bbox_data |}.

(** An image entity of the host: [async_image] raises, or returns bytes or
    [None]. *)
Record ImageEntity : Type := {
  async_image : result (option bytes);
}.

(** The part of the host the pass touches. *)
Record Hass : Type := {
  (* hass.data["entity_components"]["image"], as its get_entity *)
  image_component : option (string -> option ImageEntity);
  (* hass.data[DOMAIN][entry_id]["jpeg_bytes"], when the entry is set up *)
  entry_data : option (option bytes);
  (* the state last written for the sensor *)
  written_state : option (Z * attributes);
}.

Record World : Type := {
  sensor : Sensor;
  hass : Hass;
}.

Definition set_sensor (w : World) (s : Sensor) : World :=
  {| sensor := s; hass := hass w |}.

Definition async_write_ha_state (w : World) : result unit * World :=
  match extra_state_attributes (sensor w) with
  | Ok attrs =>
      (Ok (),
       {| sensor := sensor w;
          hass := {| image_component := image_component (hass w);
                     entry_data := entry_data (hass w);
                     written_state := Some (native_value (sensor w), attrs) |} |})
  | Raised e => (Raised e, w)
  end.

Definition _async_get_pick_image (w : World) (entity_id : string)
    : option bytes :=
  match image_component (hass w) with
  | None => None
  | Some get_entity =>
      match get_entity entity_id with
      | None => None
      | Some entity =>
          match async_image entity with
          | Ok image_bytes => image_bytes
          | Raised _ => None
          end
      end
  end.

(** [entry_data["jpeg_bytes"] = jpeg_bytes]; without an entry the write
    lands in a throw-away dictionary.  The clock reading the code stores
    beside the bytes ([jpeg_updated]) is not part of this state. *)
Definition store_jpeg (w : World) (jpeg_bytes : bytes) : World :=
  {| sensor := sensor w;
     hass := {| image_component := image_component (hass w);
                entry_data :=
                  match entry_data (hass w) with
                  | Some _ => Some (Some jpeg_bytes)
                  | None => None
                  end;
                written_state := written_state (hass w) |} |}.

Section Pillow.
(** The codecs are Pillow's: decoding, mode conversion and encoding are
    taken as given. *)
Variable Image_open : bytes -> result Image.
Variable Image_convert : Image -> string -> result Image.
Variable Image_save : Image -> string -> Z -> result bytes.

Definition compute_bounding_boxes (image_bytes : bytes) : result analysis :=
  image ← Image_open image_bytes;
  scan_image image.

(** The [if]/[elif] of [convert_to_jpeg]: the raster that is encoded. *)
Definition jpeg_raster (image : Image) : result Image :=
  if decide (im_mode image = "RGBA") then
    let bg := Image_new "RGB" (im_size image) [0; 0; 0]%N in
    mask ← list_get (split image) 3;
    mret (paste bg image mask)
  else if decide (im_mode image ≠ "RGB") then
    Image_convert image "RGB"
  else mret image.

Definition convert_to_jpeg (image_bytes : bytes) (quality : Z) : result bytes :=
  image ← Image_open image_bytes;
  image ← jpeg_raster image;
  Image_save image "JPEG" quality.

Definition _process_plate_data (objects_attr : list (string * string))
    (w : World) : result unit * World :=
  match objects_attr with
  | [] =>
      async_write_ha_state
        (set_sensor w
           {| _pick_image_entity_id := _pick_image_entity_id (sensor w);
              _object_count := 0;
              _objects := [];
              _image_width := 0;
              _image_height := 0 |})
  | _ =>
      match _pick_image_entity_id (sensor w) with
      | None => (Raised AssertionError, w)
      | Some entity_id =>
          match _async_get_pick_image w entity_id with
          | None => (Ok (), w)
          | Some image_bytes =>
              match compute_bounding_boxes image_bytes with
              | Raised _ => (Ok (), w)
              | Ok result =>
                  let merged := merge objects_attr (bboxes result) in
                  let w :=
                    set_sensor w
                      {| _pick_image_entity_id := Some entity_id;
                         _object_count := Z.of_nat (length merged);
                         _objects := merged;
                         _image_width := image_width result;
                         _image_height := image_height result |} in
                  let w :=
                    match convert_to_jpeg image_bytes default_quality with
                    | Ok jpeg_bytes => store_jpeg w jpeg_bytes
                    | Raised _ => w
                    end in
                  async_write_ha_state w
              end
          end
      end
  end.
End Pillow.

(** ** Vocabulary of the statements *)

(** The pixels in the order the two loops visit them. *)
Definition scan_order (image_width image_height : Z) : list (Z * Z) :=
  y ← range image_height; x ← range image_width; [(x, y)].

(** The scan resumed in state [st] over the coordinates [coords]. *)
Definition scan_from (pixels : Z -> Z -> pixel) (st : scan_state)
    (coords : list (Z * Z)) : result scan_state :=
  for_each coords (fun st '(x, y) => scan_pixel pixels y st x) st.

Definition in_image (image : Image) (x y : Z) : Prop :=
  (0 <= x < (im_size image).1) /\ (0 <= y < (im_size image).2).

(** Every pixel of the raster is a tuple of four channel values. *)
Definition four_band (image : Image) : Prop :=
  forall x y, in_image image x y ->
    exists r g b a, im_load image x y = Bands [r; g; b; a].

(** The identifier a pixel stands for: none when the pixel is fully
    transparent. *)
Definition pixel_id (px : pixel) : option string :=
  match unpack4 px with
  | Ok (r, g, b, a) =>
      if (a =? 0)%N then None
      else match identify_id_of r g b with
           | Ok identify_id => Some identify_id
           | Raised _ => None
           end
  | Raised _ => None
  end.

(** Pixel (x,y) of the image has non-zero alpha and identifier [id]. *)
Definition owns (image : Image) (id : string) (x y : Z) : Prop :=
  in_image image x y /\ pixel_id (im_load image x y) = Some id.

(** [box] is the component-wise minimum and maximum of the coordinates
    that satisfy [P]. *)
Definition tight_box (P : Z -> Z -> Prop) (box : list Z) : Prop :=
  exists x0 y0 x1 y1,
    box = [x0; y0; x1; y1] /\
    (forall x y, P x y -> x0 <= x <= x1 /\ y0 <= y <= y1) /\
    (exists y, P x0 y) /\ (exists x, P x y0) /\
    (exists y, P x1 y) /\ (exists x, P x y1).

(** What the extractor's map must be for an image: under each identifier
    the tight box of its pixels, and nothing under an identifier without
    pixels. *)
Definition boxes_correct (image : Image) (bboxes : gmap string (list Z)) : Prop :=
  forall id,
    match bboxes !! id with
    | Some box => tight_box (owns image id) box
    | None => forall x y, ~ owns image id x y
    end.

(** The pixel is a four-band tuple with alpha exactly 0. *)
Definition transparent_px (px : pixel) : bool :=
  match unpack4 px with
  | Ok (_, _, _, a) => (a =? 0)%N
  | Raised _ => false
  end.

(** The running box of a non-empty list of points: the first point gives
    [(x,y,x,y)], each later one widens every bound on its own. *)
Definition expand (box : Z * Z * Z * Z) (p : Z * Z) : Z * Z * Z * Z :=
  let '(x0, y0, x1, y1) := box in
  let '(x, y) := p in
  (Z.min x0 x, Z.min y0 y, Z.max x1 x, Z.max y1 y).

Definition box_of (pts : list (Z * Z)) : option (Z * Z * Z * Z) :=
  match pts with
  | [] => None
  | (x, y) :: rest => Some (fold_left expand rest (x, y, x, y))
  end.

Definition box_list (box : Z * Z * Z * Z) : list Z :=
  let '(x0, y0, x1, y1) := box in [x0; y0; x1; y1].

(** The points among [coords] whose pixel has identifier [id]. *)
Definition points_of (pixels : Z -> Z -> pixel) (id : string)
    (coords : list (Z * Z)) : list (Z * Z) :=
  filter (fun p => pixel_id (pixels p.1 p.2) = Some id) coords.

(** What holds of the scan state once the pixels [visited] are behind it. *)
Definition scan_inv (pixels : Z -> Z -> pixel) (visited : list (Z * Z))
    (st : scan_state) : Prop :=
  (forall c id, st_seen_colors st !! c = Some id -> pixel_id c = Some id) /\
  (forall id, st_bboxes st !! id = box_list <$> box_of (points_of pixels id visited)).

(** The record the merge makes of one entry of the name mapping. *)
Definition merged_entry (bboxes : gmap string (list Z))
    (entry : string * string) : string * obj_data :=
  (entry.1, {| name := entry.2; bbox := bboxes !! entry.1 |}).

(** The serialization as the format describes it: [id:name:] followed by
    the four bounds separated by commas, or by nothing when there is no
    box. *)
Definition box_text (bbox : option (list Z)) : string :=
  match bbox with
  | Some [min_x; min_y; max_x; max_y] =>
      str min_x +:+ "," +:+ str min_y +:+ "," +:+ str max_x +:+ "," +:+ str max_y
  | _ => ""
  end.

Definition segment_text (entry : string * obj_data) : string :=
  entry.1 +:+ ":" +:+ name entry.2 +:+ ":" +:+ box_text (bbox entry.2).

(** Every box that is present has its four bounds. *)
Definition boxes_have_four (objects : list (string * obj_data)) : Prop :=
  Forall (fun entry => forall box, bbox entry.2 = Some box -> length box = 4%nat)
    objects.

(** The count the sensor reports is the number of entries it holds, and so
    is the count last written to the host. *)
Definition count_matches (self : Sensor) : Prop :=
  _object_count self = Z.of_nat (length (_objects self)).

Definition world_inv (w : World) : Prop :=
  count_matches (sensor w) /\
  forall v attrs, written_state (hass w) = Some (v, attrs) ->
    v = Z.of_nat (length (attr_objects attrs)).

(** [c] scaled by the alpha [a] out of 255, rounded to the nearest: the
    blend of a channel with black. *)
Definition alpha_blend (c a : N) : N := ((c * a + 127) / 255)%N.

(** The alpha of a pixel of a mode with an alpha band: its last channel. *)
Definition alpha_of (px : pixel) : option N :=
  match px with
  | Bands cs => last cs
  | Scalar _ => None
  end.

(** [f] holds at [start], [start + 1], ..., [count] values in all. *)
Fixpoint all_from (f : N -> bool) (count : nat) (start : N) : bool :=
  match count with
  | O => true
  | S count' => f start && all_from f count' (N.succ start)
  end.

(** ** Sample inputs *)

Definition transparent : pixel := Bands [0; 0; 0; 0]%N.

(** An 11 x 6 RGBA raster, transparent except for colour [C] at (5,5). *)
Definition one_pixel_image (C : pixel) : Image :=
  {| im_mode := "RGBA";
     im_size := (11, 6);
     im_load := fun x y =>
       if decide (x = 5 /\ y = 5) then C else transparent |}.

(** The same raster with a second pixel of colour [C] at (10,2). *)
Definition two_pixel_image (C : pixel) : Image :=
  {| im_mode := "RGBA";
     im_size := (11, 6);
     im_load := fun x y =>
       if decide (x = 5 /\ y = 5) then C
       else if decide (x = 10 /\ y = 2) then C
       else transparent |}.

(** The colour of the specification's example: R=0x12, G=0x34, B=0x56,
    fully opaque. *)
Definition sample_color : pixel := Bands [18; 52; 86; 255]%N.

(** A 1 x 1 raster in mode [RGB]: its pixel is a triple. *)
Definition rgb_image : Image :=
  {| im_mode := "RGB";
     im_size := (1, 1);
     im_load := fun _ _ => Bands [255; 0; 0]%N |}.

(** A decoder that knows one picture: every non-empty input decodes to
    [image], the empty input is rejected. *)
Definition fixed_decoder (image : Image) (image_bytes : bytes) : result Image :=
  match image_bytes with
  | [] => Raised UnidentifiedImageError
  | _ => Ok image
  end.

Definition some_bytes : bytes := [Byte.x89; Byte.x50; Byte.x4e; Byte.x47].


(** The bounding boxes of the specification's merge example. *)
Definition sample_bboxes : gmap string (list Z) :=
  <["7" := [1; 1; 2; 2]]> (<["9" := [0; 0; 1; 1]]> ∅).

(** A sensor that already published one object, in a host without an image
    component. *)
Definition sample_sensor : Sensor :=
  {| _pick_image_entity_id := Some "image.printer_pick_image";
     _object_count := 1;
     _objects := [("7", {| name := "Gizmo"; bbox := Some [1; 1; 2; 2] |})];
     _image_width := 11;
     _image_height := 6 |}.

Definition sample_world : World :=
  {| sensor := sample_sensor;
     hass := {| image_component := None;
                entry_data := Some None;
                written_state :=
                  Some (1, {| attr_image_width := 11;
                              attr_image_height := 6;
                              attr_objects := _objects sample_sensor;
                              attr_bbox_data := "7:Gizmo:1,1,2,2" |}) |} |}.

(** A 1 x 1 raster in mode [LA]: white, fully transparent. *)
Definition la_image : Image :=
  {| im_mode := "LA";
     im_size := (1, 1);
     im_load := fun _ _ => Bands [255; 0]%N |}.

(** Pillow's conversion to RGB for luminance rasters, with or without
    alpha: the luminance on the three channels, the alpha dropped. *)
Definition convert_luminance (image : Image) (mode : string) : result Image :=
  Ok {| im_mode := mode;
        im_size := im_size image;
        im_load := fun x y =>
          match im_load image x y with
          | Bands (l :: _) => Bands [l; l; l]
          | Bands [] => Bands []
          | Scalar v => Bands [Z.to_N v; Z.to_N v; Z.to_N v]
          end |}.

(** An encoder standing in for the JPEG codec. *)
Definition stub_save (image : Image) (format : string) (quality : Z)
    : result bytes :=
  Ok [Byte.xff; Byte.xd8; Byte.xff; Byte.xd9].

(** A host whose pick-image entity returns bytes, and a sensor fresh from
    [__init__] with its entities resolved. *)
Definition live_world : World :=
  {| sensor := {| _pick_image_entity_id := Some "image.printer_pick_image";
                  _object_count := 0;
                  _objects := [];
                  _image_width := 0;
                  _image_height := 0 |};
     hass := {| image_component :=
                  Some (fun _ => Some {| async_image := Ok (Some some_bytes) |});
                entry_data := Some None;
                written_state := None |} |}.

(** ** Further vocabulary *)

(** Every channel of every pixel of the raster is below 256. *)
Definition eight_bit (image : Image) : Prop :=
  forall x y cs, in_image image x y -> im_load image x y = Bands cs ->
    Forall (fun c => (c < 256)%N) cs.

(** The entry holds a box with one, two or three bounds. *)
Definition short_box (entry : string * obj_data) : Prop :=
  exists box, bbox entry.2 = Some box /\ (0 < length box < 4)%nat.

(** ** The image entity of [image.py] *)

(** [BambuPlateAnalyzerImage.async_image]: the stored JPEG, if any. *)
Definition served_image (w : World) : option bytes :=
  match entry_data (hass w) with
  | Some jpeg_bytes => jpeg_bytes
  | None => None
  end.

(** The image entity: its [_last_updated] and the number of states it
    wrote to the host.  Timestamps are integers; every timestamp is
    truthy, as every [datetime] is. *)
Record ImageState : Type := {
  _last_updated : option Z;
  image_writes : nat;
}.

(** [_check_jpeg_update], given [entry_data.get("jpeg_updated")]. *)
Definition _check_jpeg_update (updated : option Z) (self : ImageState)
    : ImageState :=
  match updated with
  | Some t =>
      if decide (Some t <> _last_updated self) then
        {| _last_updated := Some t; image_writes := S (image_writes self) |}
      else self
  | None => self
  end.

(** ** Entity resolution and the sensor's life cycle *)

(** An entry of the host's entity registry. *)
Record RegistryEntry : Type := {
  unique_id : string;
  entity_id : string;
}.

(** The sensor entity around its analysis state: the serial, the other
    resolved entity id and whether the global listener is registered
    ([_unsub_any_state is not None]). *)
Record SensorEntity : Type := {
  _serial : string;
  _printable_objects_entity_id : option string;
  _unsub_any_state : bool;
  analysis_state : Sensor;
}.

(** [__init__] *)
Definition SensorEntity_init (serial : string) : SensorEntity :=
  {| _serial := serial;
     _printable_objects_entity_id := None;
     _unsub_any_state := false;
     analysis_state := Sensor_init |}.

Definition set_pick_image_entity_id (s : Sensor) (id : option string) : Sensor :=
  {| _pick_image_entity_id := id;
     _object_count := _object_count s;
     _objects := _objects s;
     _image_width := _image_width s;
     _image_height := _image_height s |}.

(** One turn of the loop over the registry: the two entity ids after it. *)
Definition resolve_step (serial : string) (ids : option string * option string)
    (entry : RegistryEntry) : option string * option string :=
  if decide (unique_id entry = serial +:+ "_printable_objects") then
    (Some (entity_id entry), ids.2)
  else if decide (unique_id entry = serial +:+ "_pick_image") then
    (ids.1, Some (entity_id entry))
  else ids.

Definition _resolve_entities (registry : list RegistryEntry)
    (self : SensorEntity) : bool * SensorEntity :=
  let ids :=
    fold_left (resolve_step (_serial self)) registry
      (_printable_objects_entity_id self,
       _pick_image_entity_id (analysis_state self)) in
  (bool_decide (is_Some ids.1 /\ is_Some ids.2),
   {| _serial := _serial self;
      _printable_objects_entity_id := ids.1;
      _unsub_any_state := _unsub_any_state self;
      analysis_state := set_pick_image_entity_id (analysis_state self) ids.2 |}).

(** What the sensor asked of the host: the entities whose changes it
    tracks and the passes it scheduled, each with its name mapping. *)
Record Host : Type := {
  tracked : list string;
  scheduled : list (list (string * string));
}.

(** [hass.states.get(entity_id)] and then [attributes.get("objects")]: no
    state, a state without the attribute, or the mapping. *)
Abbreviation states_view := (string -> option (option (list (string * string)))).

Definition _subscribe_to_printable_objects (states : states_view)
    (self : SensorEntity) (host : Host) : result unit * SensorEntity * Host :=
  match _printable_objects_entity_id self with
  | None => (Raised AssertionError, self, host)
  | Some id =>
      let host := {| tracked := tracked host ++ [id];
                     scheduled := scheduled host |} in
      match states id with
      | Some (Some ((_ :: _) as objects)) =>
          (Ok (), self,
           {| tracked := tracked host;
              scheduled := scheduled host ++ [objects] |})
      | _ => (Ok (), self, host)
      end
  end.

Definition _cancel_any_state_listener (self : SensorEntity) : SensorEntity :=
  if _unsub_any_state self then
    {| _serial := _serial self;
       _printable_objects_entity_id := _printable_objects_entity_id self;
       _unsub_any_state := false;
       analysis_state := analysis_state self |}
  else self.

Definition _on_any_state_changed (registry : list RegistryEntry)
    (states : states_view) (self : SensorEntity) (host : Host)
    : result unit * SensorEntity * Host :=
  let '(resolved, self) := _resolve_entities registry self in
  if resolved then
    _subscribe_to_printable_objects states (_cancel_any_state_listener self) host
  else (Ok (), self, host).

Definition async_added_to_hass (registry : list RegistryEntry)
    (states : states_view) (self : SensorEntity) (host : Host)
    : result unit * SensorEntity * Host :=
  let '(resolved, self) := _resolve_entities registry self in
  if negb resolved then
    (Ok (),
     {| _serial := _serial self;
        _printable_objects_entity_id := _printable_objects_entity_id self;
        _unsub_any_state := true;
        analysis_state := analysis_state self |},
     host)
  else _subscribe_to_printable_objects states self host.

(** The host's bus: a [state_changed] event reaches the sensor only while
    its listener is registered. *)
Definition fire_state_changed (registry : list RegistryEntry)
    (states : states_view) (self : SensorEntity) (host : Host)
    : result unit * SensorEntity * Host :=
  if _unsub_any_state self then _on_any_state_changed registry states self host
  else (Ok (), self, host).

(** The sensor added to the host and then a run of [state_changed]
    events, each with the registry and the states of its moment; the run
    stops at the first exception. *)
Fixpoint fire_all (events : list (list RegistryEntry * states_view))
    (self : SensorEntity) (host : Host) : result unit * SensorEntity * Host :=
  match events with
  | [] => (Ok (), self, host)
  | (registry, states) :: events' =>
      match fire_state_changed registry states self host with
      | (Ok _, self', host') => fire_all events' self' host'
      | failed => failed
      end
  end.

Definition life_cycle (serial : string) (registry : list RegistryEntry)
    (states : states_view)
    (events : list (list RegistryEntry * states_view))
    : result unit * SensorEntity * Host :=
  match async_added_to_hass registry states (SensorEntity_init serial)
          {| tracked := []; scheduled := [] |} with
  | (Ok _, self, host) => fire_all events self host
  | failed => failed
  end.

(** The entity id of the last registry entry with the unique id [uid]. *)
Definition last_match (uid : string) (registry : list RegistryEntry)
    : option string :=
  entity_id <$> last (filter (fun entry => unique_id entry = uid) registry).

(** ** The configuration wizard of [config_flow.py] *)

Inductive FlowResult : Type :=
  | ShowForm (errors : list (string * string))
  | AbortFlow (reason : string)
  | CreateEntry (title : string) (serial : string).

(** One turn of the wizard's loop over the registry. *)
Definition validate_step (serial : string)
    (found : option RegistryEntry * option RegistryEntry)
    (entry : RegistryEntry) : option RegistryEntry * option RegistryEntry :=
  if decide (unique_id entry = serial +:+ "_printable_objects") then
    (Some entry, found.2)
  else if decide (unique_id entry = serial +:+ "_pick_image") then
    (found.1, Some entry)
  else found.

Section Wizard.
(** The two string operations are Python's own and are taken as given:
    [s.strip()] and the slice [s[-6:]]. *)
Variable str_strip : string -> string.
Variable last_six : string -> string.

(** [async_step_user]: [configured] holds the unique ids of the entries
    that exist, [user_input] the serial field of the form. *)
Definition async_step_user (configured : list string)
    (registry : list RegistryEntry) (user_input : option string) : FlowResult :=
  match user_input with
  | None => ShowForm []
  | Some raw =>
      let serial := str_strip raw in
      if bool_decide (serial ∈ configured) then AbortFlow "already_configured"
      else
        match fold_left (validate_step serial) registry (None, None) with
        | (Some _, Some _) =>
            CreateEntry ("Bambu Plate " +:+ last_six serial) serial
        | _ => ShowForm [("base", "entities_not_found")]
        end
  end.
End Wizard.

(** The two string operations on the sample input of the wizard. *)
Definition sample_strip (s : string) : string :=
  if decide (s = "  01P00A123456789 ") then "01P00A123456789" else s.

Definition sample_last_six (s : string) : string :=
  if decide (s = "01P00A123456789") then "456789" else s.

(** What holds of the sensor and of its requests to the host at any
    moment of its life: it tracks at most one entity, the resolved
    printable-objects entity, with the pick-image entity resolved as
    well; it tracks exactly when the global listener is gone; and it
    scheduled at most one pass, with a non-empty mapping, on subscribing. *)
Definition life_cycle_inv (self : SensorEntity) (host : Host) : Prop :=
  (length (tracked host) <= 1)%nat /\
  (_unsub_any_state self = true <-> tracked host = []) /\
  (forall id, id ∈ tracked host ->
     _printable_objects_entity_id self = Some id /\
     is_Some (_pick_image_entity_id (analysis_state self))) /\
  (length (scheduled host) <= length (tracked host))%nat /\
  (forall objects, objects ∈ scheduled host -> objects <> []).

(** A registry with the two entities of one printer among others. *)
Definition sample_registry : list RegistryEntry :=
  [ {| unique_id := "01P00A123456789_printable_objects";
       entity_id := "sensor.p1s_printable_objects" |};
    {| unique_id := "01P00A123456789_pick_image";
       entity_id := "image.p1s_pick_image" |} ].

(** * Supporting lemmas *)

Lemma format_02X_byte (n : N) :
  (n < 256)%N ->
  format_02X n =
    String (hex_digit (n / 16)%N) (String (hex_digit (n mod 16)%N) "").
Proof.
  intros Hn.
  assert (Hall : forallb (fun k : nat =>
            bool_decide (format_02X (N.of_nat k) =
              String (hex_digit (N.of_nat k / 16)%N)
                (String (hex_digit (N.of_nat k mod 16)%N) "")))
            (seq 0 256) = true) by (vm_compute; reflexivity).
  rewrite forallb_forall in Hall.
  specialize (Hall (N.to_nat n)).
  rewrite N2Nat.id in Hall.
  assert (Hin : In (N.to_nat n) (seq 0 256)) by (apply in_seq; lia).
  apply Hall, bool_decide_eq_true in Hin. exact Hin.
Qed.

Lemma hex_value_digit (d : N) : (d < 16)%N -> hex_value (hex_digit d) = Some d.
Proof.
  intros Hd.
  assert (Hall : forallb (fun k : nat =>
            bool_decide (hex_value (hex_digit (N.of_nat k)) = Some (N.of_nat k)))
            (seq 0 16) = true) by (vm_compute; reflexivity).
  rewrite forallb_forall in Hall.
  specialize (Hall (N.to_nat d)).
  rewrite N2Nat.id in Hall.
  assert (Hin : In (N.to_nat d) (seq 0 16)) by (apply in_seq; lia).
  apply Hall, bool_decide_eq_true in Hin. exact Hin.
Qed.

Lemma identify_id_of_bytes (r g b : N) :
  (r < 256)%N -> (g < 256)%N -> (b < 256)%N ->
  identify_id_of r g b = Ok (str (Z.of_N (bgr_pack r g b))).
Proof.
  intros Hr Hg Hb. unfold identify_id_of.
  rewrite !format_02X_byte by assumption.
  cbv [String.append int_base16]; cbn [parse_hex_digits].
  assert (Hd : forall n, (n < 256)%N -> (n / 16 < 16)%N /\ (n mod 16 < 16)%N).
  { intros n Hn. split; [apply N.Div0.div_lt_upper_bound|apply N.mod_lt]; lia. }
  destruct (Hd r Hr) as [? ?], (Hd g Hg) as [? ?], (Hd b Hb) as [? ?].
  rewrite !hex_value_digit by assumption.
  cbn [mbind result_bind mret result_ret]. do 2 f_equal. f_equal.
  unfold bgr_pack.
  pose proof (N.div_mod r 16). pose proof (N.div_mod g 16).
  pose proof (N.div_mod b 16). lia.
Qed.

(** ** Hexadecimal text always reads back *)

Lemma hex_value_digit_some (d : N) : is_Some (hex_value (hex_digit d)).
Proof.
  destruct d as [|p]; [by eexists|].
  do 4 (try destruct p as [p|p|]); by eexists.
Qed.

Lemma parse_hex_app (s1 s2 : string) (acc : N) :
  parse_hex_digits (s1 +:+ s2) acc =
    parse_hex_digits s1 acc ≫= parse_hex_digits s2.
Proof.
  revert acc. induction s1 as [|c s1 IH]; intros acc; [done|].
  change (String c s1 +:+ s2) with (String c (s1 +:+ s2)).
  cbn [parse_hex_digits]. destruct (hex_value c); [apply IH|done].
Qed.

Lemma parse_hex_go (fuel : nat) (n : N) (s : string) :
  (forall acc, is_Some (parse_hex_digits s acc)) ->
  forall acc, is_Some (parse_hex_digits (hex_go fuel n s) acc).
Proof.
  revert n s. induction fuel as [|fuel IH]; intros n s Hs acc; [apply Hs|].
  cbn [hex_go]. destruct (n =? 0)%N; [apply Hs|].
  apply IH. intros acc'. cbn [parse_hex_digits].
  destruct (hex_value_digit_some (n mod 16)%N) as [d ->]. apply Hs.
Qed.

Lemma parse_hex_zeros (k : nat) (s : string) :
  (forall acc, is_Some (parse_hex_digits s acc)) ->
  forall acc, is_Some (parse_hex_digits (zeros k +:+ s) acc).
Proof.
  intros Hs. induction k as [|k IH]; intros acc; [apply Hs|].
  change (zeros (S k) +:+ s) with (String "0" (zeros k +:+ s)).
  cbn [parse_hex_digits]. change (hex_value "0") with (Some 0%N). apply IH.
Qed.

Lemma parse_hex_format (n : N) (acc : N) :
  is_Some (parse_hex_digits (format_02X n) acc).
Proof.
  unfold format_02X. apply parse_hex_zeros. clear acc. intros acc.
  unfold format_X. destruct (n =? 0)%N; [by eexists|].
  apply parse_hex_go. intros acc'. by eexists.
Qed.

Lemma hex_go_nonempty (fuel : nat) (n : N) (s : string) :
  s <> "" -> hex_go fuel n s <> "".
Proof.
  revert n s. induction fuel as [|fuel IH]; intros n s Hs; [done|].
  cbn [hex_go]. destruct (n =? 0)%N; [done|]. by apply IH.
Qed.

Lemma format_02X_nonempty (n : N) : format_02X n <> "".
Proof.
  assert (Hx : format_X n <> "").
  { unfold format_X. destruct (n =? 0)%N eqn:Hn; [done|].
    apply N.eqb_neq in Hn.
    destruct (N.size_nat n) as [|fuel] eqn:Hsz.
    { destruct n; [done|]. simpl in Hsz. destruct p; discriminate. }
    cbn [hex_go]. apply N.eqb_neq in Hn. rewrite Hn.
    by apply hex_go_nonempty. }
  unfold format_02X. destruct (format_X n) as [|c s]; [done|].
  destruct (2 - String.length (String c s))%nat as [|k]; done.
Qed.

Lemma int_base16_0x (digits : string) :
  digits <> "" ->
  int_base16 ("0x" +:+ digits) =
    match parse_hex_digits digits 0 with
    | Some n => Ok n
    | None => Raised ValueError
    end.
Proof.
  intros Hne. change ("0x" +:+ digits) with (String "0" (String "x" digits)).
  unfold int_base16. by destruct digits.
Qed.

Lemma identify_id_of_total (r g b : N) :
  exists identify_id, identify_id_of r g b = Ok identify_id.
Proof.
  unfold identify_id_of. rewrite int_base16_0x.
  - rewrite parse_hex_app.
    destruct (parse_hex_format b 0) as [vb ->]. cbn [mbind option_bind].
    rewrite parse_hex_app.
    destruct (parse_hex_format g vb) as [vg ->]. cbn [mbind option_bind].
    destruct (parse_hex_format r vg) as [vr ->]. by eexists.
  - pose proof (format_02X_nonempty b) as Hb.
    destruct (format_02X b); done.
Qed.

(** ** The two loops as one pass over [scan_order] *)

Lemma for_each_app {A S} (xs ys : list A) (body : S -> A -> result S) (st : S) :
  for_each (xs ++ ys) body st = for_each xs body st ≫= for_each ys body.
Proof.
  revert st. induction xs as [|x xs IH]; intros st; [done|].
  cbn [for_each app]. destruct (body st x); [apply IH|done].
Qed.

Lemma scan_row_flat (pixels : Z -> Z -> pixel) (y : Z) (xs : list Z)
    (st : scan_state) :
  for_each xs (scan_pixel pixels y) st =
    scan_from pixels st (x ← xs; [(x, y)]).
Proof.
  revert st. induction xs as [|x xs IH]; intros st; [done|].
  unfold scan_from in *. cbn. destruct (scan_pixel pixels y st x); [apply IH|done].
Qed.

Lemma scan_rows_flat (pixels : Z -> Z -> pixel) (xs ys : list Z)
    (st : scan_state) :
  for_each ys (fun st y => for_each xs (scan_pixel pixels y) st) st =
    scan_from pixels st (y ← ys; x ← xs; [(x, y)]).
Proof.
  revert st. induction ys as [|y ys IH]; intros st; [done|].
  cbn [for_each]. rewrite bind_cons. unfold scan_from at 1.
  rewrite for_each_app. fold (scan_from pixels st (x ← xs; [(x, y)])).
  rewrite <- scan_row_flat.
  destruct (for_each xs (scan_pixel pixels y) st); [apply IH|done].
Qed.

Lemma scan_image_flat (image : Image) :
  scan_image image =
    st ← scan_from (im_load image) scan_init
           (scan_order (im_size image).1 (im_size image).2);
    mret {| image_width := (im_size image).1;
            image_height := (im_size image).2;
            bboxes := st_bboxes st |}.
Proof.
  unfold scan_image, scan_order. destruct (im_size image) as [w h].
  by rewrite scan_rows_flat.
Qed.

Lemma elem_of_scan_order (w h x y : Z) :
  (x, y) ∈ scan_order w h <-> (0 <= x < w) /\ (0 <= y < h).
Proof.
  unfold scan_order, range. rewrite list_elem_of_bind. split.
  - intros (y' & Hin & Hy). apply list_elem_of_bind in Hin as (x' & Hin & Hx).
    apply list_elem_of_singleton in Hin. simplify_eq.
    apply elem_of_seqZ in Hx, Hy. lia.
  - intros [Hx Hy]. exists y. split; [|apply elem_of_seqZ; lia].
    apply list_elem_of_bind. exists x.
    split; [by apply list_elem_of_singleton|apply elem_of_seqZ; lia].
Qed.

(** ** Running boxes *)

Lemma box_of_snoc (pts : list (Z * Z)) (p : Z * Z) :
  box_of (pts ++ [p]) =
    Some (match box_of pts with
          | None => (p.1, p.2, p.1, p.2)
          | Some box => expand box p
          end).
Proof.
  destruct pts as [|[x y] rest]; [by destruct p|].
  cbn [box_of app]. by rewrite fold_left_app.
Qed.

Lemma update_bbox_spec (bboxes : gmap string (list Z)) (id : string) (x y : Z)
    (running : option (Z * Z * Z * Z)) :
  bboxes !! id = box_list <$> running ->
  update_bbox bboxes id x y =
    Ok (<[id := box_list (match running with
                          | None => (x, y, x, y)
                          | Some box => expand box (x, y)
                          end)]> bboxes).
Proof.
  intros Hlook. unfold update_bbox. rewrite Hlook.
  destruct running as [[[[x0 y0] x1] y1]|]; [|done].
  cbn [fmap option_fmap option_map box_list expand].
  unfold lower, raise, list_get. cbn.
  destruct (Z.ltb_spec x x0); cbn; destruct (Z.ltb_spec y y0); cbn;
    destruct (Z.gtb_spec x x1); cbn; destruct (Z.gtb_spec y y1); cbn;
    do 2 f_equal; repeat (f_equal; try lia).
Qed.

Lemma points_of_snoc (pixels : Z -> Z -> pixel) (id : string)
    (visited : list (Z * Z)) (x y : Z) :
  points_of pixels id (visited ++ [(x, y)]) =
    points_of pixels id visited ++
      (if decide (pixel_id (pixels x y) = Some id) then [(x, y)] else []).
Proof.
  unfold points_of. by rewrite filter_app.
Qed.

(** ** One pixel, then any stretch of the scan *)

Lemma unpack4_Ok (px : pixel) (r g b a : N) :
  unpack4 px = Ok (r, g, b, a) <-> px = Bands [r; g; b; a].
Proof.
  split; [|by intros ->].
  destruct px as [v|cs]; [done|].
  destruct cs as [|? [|? [|? [|? [|? ?]]]]]; cbn; congruence.
Qed.

Lemma pixel_id_opaque (r g b a : N) (id : string) :
  a <> 0%N -> identify_id_of r g b = Ok id ->
  pixel_id (Bands [r; g; b; a]) = Some id.
Proof.
  intros Ha Hid. unfold pixel_id. cbn [unpack4].
  apply N.eqb_neq in Ha. by rewrite Ha, Hid.
Qed.

Lemma pixel_id_transparent (r g b : N) : pixel_id (Bands [r; g; b; 0%N]) = None.
Proof. done. Qed.

Lemma lookup_color_spec (seen : gmap pixel string) (r g b a : N) (id : string) :
  (forall c id', seen !! c = Some id' -> pixel_id c = Some id') ->
  a <> 0%N -> identify_id_of r g b = Ok id ->
  exists seen',
    lookup_color seen (Bands [r; g; b; a]) r g b = Ok (id, seen') /\
    (forall c id', seen' !! c = Some id' -> pixel_id c = Some id').
Proof.
  intros Hseen Ha Hid.
  pose proof (pixel_id_opaque r g b a id Ha Hid) as Hpx.
  unfold lookup_color.
  destruct (seen !! Bands [r; g; b; a]) as [id'|] eqn:Hlook.
  - apply Hseen in Hlook. exists seen. split; [congruence|done].
  - rewrite Hid. eexists. split; [done|].
    intros c id' Hc. apply lookup_insert_Some in Hc as [[<- <-]|[_ Hc]]; auto.
Qed.

Lemma scan_pixel_spec (pixels : Z -> Z -> pixel) (visited : list (Z * Z))
    (st : scan_state) (x y : Z) :
  scan_inv pixels visited st ->
  match unpack4 (pixels x y) with
  | Raised e => scan_pixel pixels y st x = Raised e
  | Ok _ =>
      exists st', scan_pixel pixels y st x = Ok st' /\
                  scan_inv pixels (visited ++ [(x, y)]) st'
  end.
Proof.
  intros [Hseen Hbox]. unfold scan_pixel.
  destruct (unpack4 (pixels x y)) as [[[[r g] b] a]|e] eqn:Hun; [|done].
  apply unpack4_Ok in Hun. cbn [mbind result_bind].
  destruct (a =? 0)%N eqn:Ha.
  - apply N.eqb_eq in Ha. subst a. exists st. split; [done|].
    split; [done|]. intros id. rewrite points_of_snoc, Hun.
    rewrite pixel_id_transparent. rewrite decide_False by done.
    by rewrite app_nil_r.
  - apply N.eqb_neq in Ha.
    destruct (identify_id_of_total r g b) as [id0 Hid0].
    rewrite Hun.
    destruct (lookup_color_spec _ r g b a id0 Hseen Ha Hid0)
      as (seen' & -> & Hseen').
    cbn [mbind result_bind].
    rewrite (update_bbox_spec _ _ x y _ (Hbox id0)).
    cbn [mbind result_bind mret result_ret].
    eexists. split; [done|]. split; [done|]. intros id. cbn [st_bboxes].
    rewrite points_of_snoc, Hun, (pixel_id_opaque r g b a id0 Ha Hid0).
    destruct (decide (id0 = id)) as [<-|Hne].
    + rewrite lookup_insert_eq, decide_True by done.
      by rewrite box_of_snoc.
    + rewrite lookup_insert_ne by done.
      rewrite decide_False by congruence. by rewrite app_nil_r.
Qed.

Lemma scan_inv_init (pixels : Z -> Z -> pixel) : scan_inv pixels [] scan_init.
Proof. split; intros *; cbn; by rewrite ?lookup_empty. Qed.

Lemma scan_from_spec (pixels : Z -> Z -> pixel) (coords visited : list (Z * Z))
    (st : scan_state) :
  scan_inv pixels visited st ->
  (exists st', scan_from pixels st coords = Ok st' /\
               scan_inv pixels (visited ++ coords) st') \/
  (exists e x y, scan_from pixels st coords = Raised e /\
                 (x, y) ∈ coords /\ unpack4 (pixels x y) = Raised e).
Proof.
  revert visited st. induction coords as [|[x y] coords IH]; intros visited st Hinv.
  - left. exists st. by rewrite app_nil_r.
  - pose proof (scan_pixel_spec pixels visited st x y Hinv) as Hstep.
    unfold scan_from. cbn [for_each]. fold (scan_from pixels).
    destruct (unpack4 (pixels x y)) as [c|e] eqn:Hun.
    + destruct Hstep as (st' & -> & Hinv').
      destruct (IH _ _ Hinv') as [(st'' & Hrun & Hinv'')|(e & x' & y' & Hrun & Hin & He)].
      * left. exists st''. fold (scan_from pixels st' coords).
        split; [done|]. by rewrite <- app_assoc in Hinv''.
      * right. exists e, x', y'. fold (scan_from pixels st' coords).
        split; [done|]. split; [by right|done].
    + right. exists e, x, y. rewrite Hstep. split; [done|]. split; [by left|done].
Qed.

(** ** The running box is the tight box *)

Lemma box_of_None (pts : list (Z * Z)) : box_of pts = None <-> pts = [].
Proof. destruct pts as [|[x y] rest]; split; done. Qed.

Lemma box_of_tight (pts : list (Z * Z)) (box : Z * Z * Z * Z) :
  box_of pts = Some box ->
  tight_box (fun x y => (x, y) ∈ pts) (box_list box).
Proof.
  revert box. induction pts as [|[x y] pts IH] using rev_ind; intros box; [done|].
  rewrite box_of_snoc. intros [= <-].
  destruct (box_of pts) as [[[[x0 y0] x1] y1]|] eqn:Hbox.
  - destruct (IH _ eq_refl) as (a0 & b0 & a1 & b1 & [= <- <- <- <-] & Hall
                                  & [ya Hya] & [xb Hxb] & [yc Hyc] & [xd Hxd]).
    cbn [expand box_list]. eexists _, _, _, _. split; [done|].
    split.
    { intros x' y' [Hin|Hin%list_elem_of_singleton]%elem_of_app.
      - apply Hall in Hin. lia.
      - simplify_eq. lia. }
    repeat split.
    + destruct (Z.min_spec x0 x) as [[_ ->]|[_ ->]];
        [exists ya; apply elem_of_app; by left
        |exists y; apply elem_of_app; right; by apply list_elem_of_singleton].
    + destruct (Z.min_spec y0 y) as [[_ ->]|[_ ->]];
        [exists xb; apply elem_of_app; by left
        |exists x; apply elem_of_app; right; by apply list_elem_of_singleton].
    + destruct (Z.max_spec x1 x) as [[_ ->]|[_ ->]];
        [exists y; apply elem_of_app; right; by apply list_elem_of_singleton
        |exists yc; apply elem_of_app; by left].
    + destruct (Z.max_spec y1 y) as [[_ ->]|[_ ->]];
        [exists x; apply elem_of_app; right; by apply list_elem_of_singleton
        |exists xd; apply elem_of_app; by left].
  - apply box_of_None in Hbox. subst pts. cbn.
    exists x, y, x, y. split; [done|]. split.
    { intros x' y' Hin%list_elem_of_singleton. simplify_eq. lia. }
    repeat split; eexists; by apply list_elem_of_singleton.
Qed.

Lemma tight_box_iff (P Q : Z -> Z -> Prop) (box : list Z) :
  (forall x y, P x y <-> Q x y) -> tight_box P box -> tight_box Q box.
Proof.
  intros HPQ (x0 & y0 & x1 & y1 & -> & Hall & [ya Hya] & [xb Hxb] & [yc Hyc] & [xd Hxd]).
  exists x0, y0, x1, y1. split; [done|]. split; [intros x y Hq; by apply Hall, HPQ|].
  repeat split; eexists; apply HPQ; eassumption.
Qed.

Lemma elem_of_points_of (image : Image) (id : string) (x y : Z) :
  (x, y) ∈ points_of (im_load image) id
             (scan_order (im_size image).1 (im_size image).2)
  <-> owns image id x y.
Proof.
  unfold points_of, owns, in_image.
  rewrite list_elem_of_filter, elem_of_scan_order. cbn. tauto.
Qed.

Lemma scan_inv_boxes_correct (image : Image) (st : scan_state) :
  scan_inv (im_load image)
    (scan_order (im_size image).1 (im_size image).2) st ->
  boxes_correct image (st_bboxes st).
Proof.
  intros [_ Hbox] id. rewrite Hbox.
  destruct (box_of _) as [box|] eqn:Hb; cbn.
  - apply box_of_tight in Hb. revert Hb. apply tight_box_iff.
    intros x' y'. apply elem_of_points_of.
  - apply box_of_None in Hb. intros x y Hown%elem_of_points_of.
    rewrite Hb in Hown. by apply elem_of_nil in Hown.
Qed.

Lemma boxes_correct_absent (image : Image) (bb : gmap string (list Z))
    (id : string) :
  boxes_correct image bb -> (forall x y, ~ owns image id x y) -> bb !! id = None.
Proof.
  intros Hbb Hnone. specialize (Hbb id).
  destruct (bb !! id) as [box|]; [|done].
  destruct Hbb as (x0 & y0 & x1 & y1 & _ & _ & [y Hy] & _).
  by destruct (Hnone x0 y).
Qed.

Lemma boxes_correct_present (image : Image) (bb : gmap string (list Z))
    (id : string) (x y : Z) :
  boxes_correct image bb -> owns image id x y ->
  exists box, bb !! id = Some box /\ tight_box (owns image id) box.
Proof.
  intros Hbb Hown. specialize (Hbb id).
  destruct (bb !! id) as [box|]; [by exists box|]. by destruct (Hbb x y).
Qed.

Lemma four_band_unpack (image : Image) (x y : Z) :
  four_band image ->
  (x, y) ∈ scan_order (im_size image).1 (im_size image).2 ->
  exists c, unpack4 (im_load image x y) = Ok c.
Proof.
  intros Hfour Hin%elem_of_scan_order.
  destruct (Hfour x y Hin) as (r & g & b & a & ->). by eexists.
Qed.

(** The scan of a four-band raster ends, with the right boxes. *)
Lemma scan_image_correct (image : Image) :
  four_band image ->
  exists bb,
    scan_image image =
      Ok {| image_width := (im_size image).1;
            image_height := (im_size image).2;
            bboxes := bb |} /\
    boxes_correct image bb.
Proof.
  intros Hfour. rewrite scan_image_flat.
  destruct (scan_from_spec (im_load image)
              (scan_order (im_size image).1 (im_size image).2) []
              scan_init (scan_inv_init _))
    as [(st & -> & Hinv)|(e & x & y & _ & Hin & He)].
  - exists (st_bboxes st). split; [done|].
    by apply scan_inv_boxes_correct.
  - destruct (four_band_unpack image x y Hfour Hin) as [c Hc]. congruence.
Qed.

(** ** The extractor on decoded input *)

Lemma compute_bounding_boxes_decoded (Image_open : bytes -> result Image)
    (image_bytes : bytes) (image : Image) :
  Image_open image_bytes = Ok image ->
  compute_bounding_boxes Image_open image_bytes = scan_image image.
Proof. intros Hopen. unfold compute_bounding_boxes. by rewrite Hopen. Qed.

Lemma scan_image_failure (image : Image) (e : exn) :
  scan_image image = Raised e ->
  exists x y, in_image image x y /\ unpack4 (im_load image x y) = Raised e.
Proof.
  rewrite scan_image_flat.
  destruct (scan_from_spec (im_load image)
              (scan_order (im_size image).1 (im_size image).2) []
              scan_init (scan_inv_init _))
    as [(st & -> & _)|(e' & x & y & -> & Hin & He)]; [done|].
  intros [= <-]. exists x, y. split; [|done]. by apply elem_of_scan_order.
Qed.

Lemma scan_from_skips_transparent (pixels : Z -> Z -> pixel)
    (coords : list (Z * Z)) (st : scan_state) :
  scan_from pixels st coords =
    scan_from pixels st
      (filter (fun p => transparent_px (pixels p.1 p.2) = false) coords).
Proof.
  revert st. induction coords as [|[x y] coords IH]; intros st; [done|].
  rewrite filter_cons. cbn [fst snd]. unfold scan_from in *.
  case_decide as Htr.
  - cbn [for_each]. destruct (scan_pixel pixels y st x); [apply IH|done].
  - cbn [for_each]. apply not_false_is_true in Htr.
    unfold transparent_px in Htr. unfold scan_pixel.
    destruct (unpack4 (pixels x y)) as [[[[r g] b] a]|e]; [|done].
    cbn [mbind result_bind]. rewrite Htr. apply IH.
Qed.

Lemma scan_pixel_transparent (pixels : Z -> Z -> pixel) (st : scan_state)
    (x y : Z) :
  transparent_px (pixels x y) = true -> scan_pixel pixels y st x = Ok st.
Proof.
  unfold transparent_px, scan_pixel.
  destruct (unpack4 (pixels x y)) as [[[[r g] b] a]|e]; [|done].
  cbn [mbind result_bind]. by intros ->.
Qed.

Lemma transparent_px_no_id (px : pixel) :
  transparent_px px = true -> pixel_id px = None.
Proof.
  unfold transparent_px, pixel_id.
  destruct (unpack4 px) as [[[[r g] b] a]|e]; [|done]. by intros ->.
Qed.

(** * The extractor *)

(** C1.  A pixel with non-zero alpha that the scan reaches is given the
    identifier that is the decimal text of B * 65536 + G * 256 + R: the
    colour lookup returns it, whatever the cache already holds, and the
    box updated for the pixel is the one stored under it.  The opaque
    colour R=0x12, G=0x34, B=0x56 gets 5649426, the value of 0x563412. *)
Theorem identifier_is_bgr_packing (image : Image) (pre post : list (Z * Z))
    (st : scan_state) (x y : Z) (r g b a : N) :
  scan_order (im_size image).1 (im_size image).2 = pre ++ (x, y) :: post ->
  scan_from (im_load image) scan_init pre = Ok st ->
  im_load image x y = Bands [r; g; b; a] ->
  a <> 0%N -> (r < 256)%N -> (g < 256)%N -> (b < 256)%N ->
  let id := str (Z.of_N (b * 65536 + g * 256 + r)) in
  (exists seen',
     lookup_color (st_seen_colors st) (im_load image x y) r g b = Ok (id, seen')) /\
  (exists st' x0 y0 x1 y1,
     scan_pixel (im_load image) y st x = Ok st' /\
     st_bboxes st' !! id = Some [x0; y0; x1; y1] /\
     x0 <= x <= x1 /\ y0 <= y <= y1) /\
  identify_id_of 18 52 86 = Ok "5649426" /\
  str (Z.of_N (86 * 65536 + 52 * 256 + 18)) = "5649426" /\
  (86 * 65536 + 52 * 256 + 18 = 0x563412)%N.
Proof.
  intros _ Hpre Hpx Ha Hr Hg Hb id.
  pose proof (identify_id_of_bytes r g b Hr Hg Hb) as Hid.
  fold id in Hid. unfold bgr_pack in Hid. fold id in Hid.
  destruct (scan_from_spec (im_load image) pre [] scan_init (scan_inv_init _))
    as [(st0 & Hrun & Hinv)|(e & ? & ? & Hrun & _)]; [|congruence].
  rewrite Hpre in Hrun. injection Hrun as <-. cbn [app] in Hinv.
  split; [|split; [|by vm_compute]].
  - rewrite Hpx.
    destruct (lookup_color_spec _ r g b a id (proj1 Hinv) Ha Hid)
      as (seen' & Hlook & _). by exists seen'.
  - pose proof (scan_pixel_spec _ _ _ x y Hinv) as Hstep.
    rewrite Hpx in Hstep. cbn [unpack4] in Hstep.
    destruct Hstep as (st' & Hst' & [_ Hbox]).
    specialize (Hbox id).
    assert (Hin : (x, y) ∈ points_of (im_load image) id (pre ++ [(x, y)])).
    { apply list_elem_of_filter. cbn [fst snd]. rewrite Hpx. split.
      - by apply pixel_id_opaque.
      - apply elem_of_app. right. by apply list_elem_of_singleton. }
    destruct (box_of _) as [box|] eqn:Hb0.
    + apply box_of_tight in Hb0 as (x0 & y0 & x1 & y1 & Hbl & Hall & _).
      exists st', x0, y0, x1, y1. rewrite Hbox. cbn. rewrite Hbl.
      split; [done|]. split; [done|]. by apply Hall.
    + apply box_of_None in Hb0. rewrite Hb0 in Hin. by apply elem_of_nil in Hin.
Qed.

Lemma identifier_is_bgr_packing_witness :
  exists seen',
    lookup_color ∅ sample_color 18 52 86 = Ok ("5649426"%string, seen').
Proof.
  destruct (identifier_is_bgr_packing (one_pixel_image sample_color)
              (take 60 (scan_order 11 6)) (drop 61 (scan_order 11 6))
              scan_init 5 5 18 52 86 255) as [Hlook _].
  - by vm_compute.
  - by vm_compute.
  - reflexivity.
  - discriminate.
  - reflexivity.
  - reflexivity.
  - reflexivity.
  - exact Hlook.
Defined.

(** C2, as the code has it.  On a raster whose pixels are four-band
    tuples, a pixel whose alpha is exactly 0 leaves the scan state as it
    was, so the scan is the scan of the other pixels alone; in the result
    every box is the tight box of pixels with non-zero alpha, and such a
    raster whose pixels all have alpha 0 gives the empty map. *)
Theorem transparent_pixels_are_skipped (Image_open : bytes -> result Image)
    (image_bytes : bytes) (image : Image) :
  Image_open image_bytes = Ok image ->
  four_band image ->
  (forall st x y r g b,
     im_load image x y = Bands [r; g; b; 0%N] ->
     scan_pixel (im_load image) y st x = Ok st) /\
  (forall st coords,
     scan_from (im_load image) st coords =
       scan_from (im_load image) st
         (filter (fun p => transparent_px (im_load image p.1 p.2) = false)
            coords)) /\
  exists res,
    compute_bounding_boxes Image_open image_bytes = Ok res /\
    (forall id box,
       bboxes res !! id = Some box ->
       tight_box
         (fun x y => in_image image x y /\
                     transparent_px (im_load image x y) = false /\
                     pixel_id (im_load image x y) = Some id) box) /\
    ((forall x y, in_image image x y ->
        transparent_px (im_load image x y) = true) ->
     bboxes res = ∅).
Proof.
  intros Hopen Hfour. split; [|split].
  - intros st x y r g b Hpx. apply scan_pixel_transparent. by rewrite Hpx.
  - intros st coords. apply scan_from_skips_transparent.
  - rewrite (compute_bounding_boxes_decoded _ _ _ Hopen).
    destruct (scan_image_correct image Hfour) as (bb & -> & Hbb).
    eexists. split; [done|]. cbn [bboxes]. split.
    + intros id box Hlook. pose proof (Hbb id) as Htight.
      rewrite Hlook in Htight.
      revert Htight. apply tight_box_iff. intros x' y'. unfold owns.
      split; [|tauto]. intros [Hin Hid]. split; [done|]. split; [|done].
      destruct (transparent_px (im_load image x' y')) eqn:Htr; [|done].
      apply transparent_px_no_id in Htr. congruence.
    + intros Hall. apply map_eq. intros id. rewrite lookup_empty.
      apply (boxes_correct_absent image bb id Hbb). intros x y [Hin Hid].
      apply Hall, transparent_px_no_id in Hin. congruence.
Qed.

Lemma four_band_one_pixel (r g b a : N) :
  four_band (one_pixel_image (Bands [r; g; b; a])).
Proof.
  intros x y _. cbn. unfold transparent.
  case_decide; by eexists _, _, _, _.
Qed.

Lemma four_band_two_pixel (r g b a : N) :
  four_band (two_pixel_image (Bands [r; g; b; a])).
Proof.
  intros x y _. cbn. unfold transparent.
  repeat case_decide; by eexists _, _, _, _.
Qed.

Lemma transparent_pixels_are_skipped_witness :
  exists res,
    compute_bounding_boxes (fixed_decoder (one_pixel_image transparent))
      some_bytes = Ok res /\
    bboxes res = ∅.
Proof.
  destruct (transparent_pixels_are_skipped
              (fixed_decoder (one_pixel_image transparent)) some_bytes
              (one_pixel_image transparent) eq_refl
              (four_band_one_pixel 0 0 0 0))
    as (_ & _ & res & Hres & _ & Hempty).
  exists res. split; [exact Hres|]. apply Hempty.
  intros x y _. cbn. by case_decide.
Defined.

(** C2 as stated, for every input image, fails: a raster in mode LA has
    an alpha band, every pixel of [la_image] has alpha 0, and the scan
    raises [ValueError] on its first pixel instead of giving the empty
    map. *)
Lemma transparent_la_raster_raises :
  has_alpha_channel (im_mode la_image) = true /\
  (forall x y, in_image la_image x y ->
     alpha_of (im_load la_image x y) = Some 0%N) /\
  compute_bounding_boxes (fixed_decoder la_image) some_bytes =
    Raised ValueError /\
  ~ (forall (Image_open : bytes -> result Image) image_bytes image,
       Image_open image_bytes = Ok image ->
       (forall x y, in_image image x y ->
          alpha_of (im_load image x y) = Some 0%N) ->
       exists res,
         compute_bounding_boxes Image_open image_bytes = Ok res /\
         bboxes res = ∅).
Proof.
  split; [by vm_compute|]. split; [done|]. split; [by vm_compute|].
  intros Hall.
  destruct (Hall (fixed_decoder la_image) some_bytes la_image eq_refl)
    as (res & Hres & _); [done|].
  vm_compute in Hres. discriminate.
Qed.




(** C9, as the code has it.  When the input decodes to a raster whose
    pixels are four-band tuples, the extractor returns the image's width
    and height with a map of boxes; and whenever the scan of a decoded
    raster does raise, it is the four-way unpacking of an in-range pixel
    that raised. *)
Theorem extractor_returns_on_four_band (Image_open : bytes -> result Image)
    (image_bytes : bytes) (image : Image) :
  Image_open image_bytes = Ok image ->
  (four_band image ->
   exists bb,
     compute_bounding_boxes Image_open image_bytes =
       Ok {| image_width := (im_size image).1;
             image_height := (im_size image).2;
             bboxes := bb |}) /\
  (forall e,
     compute_bounding_boxes Image_open image_bytes = Raised e ->
     exists x y, in_image image x y /\
                 unpack4 (im_load image x y) = Raised e).
Proof.
  intros Hopen. rewrite (compute_bounding_boxes_decoded _ _ _ Hopen). split.
  - intros Hfour. destruct (scan_image_correct image Hfour) as (bb & Hrun & _).
    by exists bb.
  - apply scan_image_failure.
Qed.

Lemma extractor_returns_on_four_band_witness :
  exists bb,
    compute_bounding_boxes (fixed_decoder (one_pixel_image sample_color))
      some_bytes =
      Ok {| image_width := 11; image_height := 6; bboxes := bb |}.
Proof.
  exact (proj1 (extractor_returns_on_four_band
                  (fixed_decoder (one_pixel_image sample_color)) some_bytes
                  (one_pixel_image sample_color) eq_refl)
               (four_band_one_pixel 18 52 86 255)).
Defined.

(** C9 as stated fails: a raster in mode RGB decodes, and the scan raises
    [ValueError] on its first pixel. *)
Lemma extractor_raises_on_rgb_raster :
  fixed_decoder rgb_image some_bytes = Ok rgb_image /\
  compute_bounding_boxes (fixed_decoder rgb_image) some_bytes =
    Raised ValueError /\
  ~ (forall (Image_open : bytes -> result Image) image_bytes image,
       Image_open image_bytes = Ok image ->
       is_Ok (compute_bounding_boxes Image_open image_bytes)).
Proof.
  split; [done|]. split; [by vm_compute|].
  intros Hall.
  destruct (Hall (fixed_decoder rgb_image) some_bytes rgb_image eq_refl)
    as [res Hres].
  vm_compute in Hres. discriminate.
Qed.

(** * The sensor *)

Lemma dict_set_fresh {V} (k : string) (v : V) (d : list (string * V)) :
  k ∉ d.*1 -> dict_set k v d = d ++ [(k, v)].
Proof.
  induction d as [|[k' v'] d IH]; intros Hk; [done|].
  cbn in *. apply not_elem_of_cons in Hk as [Hne Hk].
  rewrite decide_False by done. by rewrite IH.
Qed.

Lemma merge_fold (bboxes : gmap string (list Z))
    (objects_attr : list (string * string)) (acc : list (string * obj_data)) :
  NoDup (acc.*1 ++ objects_attr.*1) ->
  fold_left
    (fun merged '(identify_id, name) =>
       let obj_data :=
         match bboxes !! identify_id with
         | Some bbox => {| name := name; bbox := Some bbox |}
         | None => {| name := name; bbox := None |}
         end in
       dict_set identify_id obj_data merged)
    objects_attr acc
  = acc ++ (merged_entry bboxes <$> objects_attr).
Proof.
  revert acc. induction objects_attr as [|[id nm] rest IH]; intros acc Hnd.
  - by rewrite app_nil_r.
  - cbn [fold_left fmap list_fmap]. cbn in Hnd.
    apply NoDup_app in Hnd as (Hacc & Hdisj & Hrest).
    rewrite dict_set_fresh
      by (intros Hin; apply (Hdisj id Hin); by left).
    rewrite IH.
    + rewrite <- app_assoc. cbn. do 2 f_equal. unfold merged_entry. cbn.
      by destruct (bboxes !! id).
    + rewrite fmap_app, <- app_assoc. cbn.
      apply NoDup_app. split; [done|]. split; [done|]. done.
Qed.

Lemma merge_spec (objects_attr : list (string * string))
    (bboxes : gmap string (list Z)) :
  NoDup objects_attr.*1 ->
  merge objects_attr bboxes = merged_entry bboxes <$> objects_attr.
Proof. intros Hnd. unfold merge. by rewrite merge_fold. Qed.

Lemma dict_get_fmap_entry (bboxes : gmap string (list Z))
    (objects_attr : list (string * string)) (id : string) :
  dict_get id (merged_entry bboxes <$> objects_attr) =
    (fun nm => {| name := nm; bbox := bboxes !! id |}) <$> dict_get id objects_attr.
Proof.
  induction objects_attr as [|[k nm] rest IH]; [done|].
  cbn. case_decide; [by subst|done].
Qed.

Lemma dict_get_Some {V} (d : list (string * V)) (k : string) (v : V) :
  NoDup d.*1 -> (k, v) ∈ d -> dict_get k d = Some v.
Proof.
  induction d as [|[k' v'] d IH]; intros Hnd Hin; [by apply elem_of_nil in Hin|].
  cbn in *. apply NoDup_cons in Hnd as [Hk' Hnd].
  apply elem_of_cons in Hin as [[= -> ->]|Hin].
  - by rewrite decide_True.
  - rewrite decide_False; [by apply IH|].
    intros ->. apply Hk'. apply list_elem_of_fmap. by exists (k', v).
Qed.

Lemma dict_get_None {V} (d : list (string * V)) (k : string) :
  k ∉ d.*1 -> dict_get k d = None.
Proof.
  induction d as [|[k' v'] d IH]; intros Hk; [done|].
  cbn in *. apply not_elem_of_cons in Hk as [Hne Hk].
  rewrite decide_False by done. by apply IH.
Qed.

(** C4.  The merged record has exactly the keys of the name mapping, in
    its order: every named identifier is there with its name and with the
    box the extractor found for it, or with no box when it found none, and
    an identifier that only the extractor knows is not there.  Merging
    {"7": "Gizmo"} with boxes for "7" and "9" keeps "7" with its box and
    has no "9". *)
Theorem merge_keeps_named_objects (objects_attr : list (string * string))
    (bboxes : gmap string (list Z)) :
  NoDup objects_attr.*1 ->
  let merged := merge objects_attr bboxes in
  merged.*1 = objects_attr.*1 /\
  (forall id nm, (id, nm) ∈ objects_attr ->
     dict_get id merged = Some {| name := nm; bbox := bboxes !! id |}) /\
  (forall id nm, (id, nm) ∈ objects_attr -> bboxes !! id = None ->
     dict_get id merged = Some {| name := nm; bbox := None |}) /\
  (forall id, id ∉ objects_attr.*1 -> dict_get id merged = None) /\
  merge [("7", "Gizmo")] sample_bboxes =
    [("7", {| name := "Gizmo"; bbox := Some [1; 1; 2; 2] |})] /\
  sample_bboxes !! "9" = Some [0; 0; 1; 1] /\
  dict_get "9" (merge [("7", "Gizmo")] sample_bboxes) = None.
Proof.
  intros Hnd merged. subst merged. rewrite merge_spec by done.
  assert (Hkeys : (merged_entry bboxes <$> objects_attr).*1 = objects_attr.*1).
  { rewrite <- list_fmap_compose. by apply list_fmap_ext. }
  assert (Hget : forall id nm, (id, nm) ∈ objects_attr ->
            dict_get id (merged_entry bboxes <$> objects_attr) =
              Some {| name := nm; bbox := bboxes !! id |}).
  { intros id nm Hin. rewrite dict_get_fmap_entry.
    by rewrite (dict_get_Some _ _ _ Hnd Hin). }
  split; [done|]. split; [done|]. split.
  { intros id nm Hin Hnone. rewrite (Hget id nm Hin). by rewrite Hnone. }
  split.
  { intros id Hid. apply dict_get_None. by rewrite Hkeys. }
  by vm_compute.
Qed.

Lemma merge_keeps_named_objects_witness :
  (merge [("7", "Gizmo"); ("8", "Widget")] sample_bboxes).*1 = ["7"; "8"] /\
  dict_get "8" (merge [("7", "Gizmo"); ("8", "Widget")] sample_bboxes) =
    Some {| name := "Widget"; bbox := None |}.
Proof.
  assert (Hnd : NoDup ([("7", "Gizmo"); ("8", "Widget")].*1 : list string)).
  { cbn. repeat constructor; rewrite ?elem_of_cons, ?elem_of_nil;
      intros H; decompose [or] H; discriminate || done. }
  destruct (merge_keeps_named_objects [("7", "Gizmo"); ("8", "Widget")]
              sample_bboxes Hnd) as (Hkeys & _ & Hnobox & _).
  split; [exact Hkeys|].
  apply Hnobox; [|reflexivity].
  apply elem_of_cons. right. apply elem_of_cons. by left.
Defined.

Lemma serialize_object_text (id : string) (obj : obj_data) :
  (forall box, bbox obj = Some box -> length box = 4%nat) ->
  serialize_object id obj = Ok (segment_text (id, obj)).
Proof.
  intros Hfour. unfold serialize_object, segment_text, box_text. cbn [fst snd].
  destruct (bbox obj) as [box|] eqn:Hb; [|done].
  specialize (Hfour box eq_refl).
  destruct box as [|a [|b [|c [|d [|? ?]]]]]; try discriminate. done.
Qed.

Lemma serialize_loop (objects : list (string * obj_data)) (parts : list string) :
  boxes_have_four objects ->
  for_each objects
    (fun parts '(identify_id, obj_data) =>
       part ← serialize_object identify_id obj_data;
       mret (parts ++ [part]))
    parts
  = Ok (parts ++ (segment_text <$> objects)).
Proof.
  revert parts. induction objects as [|[id obj] rest IH]; intros parts Hfour.
  - by rewrite app_nil_r.
  - apply Forall_cons in Hfour as [Hobj Hrest].
    cbn [for_each]. rewrite (serialize_object_text id obj Hobj).
    cbn [mbind result_bind mret result_ret].
    rewrite IH by done. by rewrite <- app_assoc.
Qed.

(** Every box the scan stores has its four bounds, so the records merged
    from it can always be serialized. *)
Lemma scan_boxes_have_four (image : Image) (res : analysis)
    (objects_attr : list (string * string)) :
  scan_image image = Ok res ->
  NoDup objects_attr.*1 ->
  boxes_have_four (merge objects_attr (bboxes res)).
Proof.
  rewrite scan_image_flat. intros Hscan Hnd.
  destruct (scan_from_spec (im_load image)
              (scan_order (im_size image).1 (im_size image).2) []
              scan_init (scan_inv_init _))
    as [(st & Hrun & [_ Hbox])|(e & x & y & Hrun & _)];
    rewrite Hrun in Hscan; [|done].
  injection Hscan as <-. cbn [bboxes]. rewrite merge_spec by done.
  apply Forall_fmap, Forall_forall. intros [id nm] _ box. cbn.
  rewrite Hbox. destruct (box_of _) as [[[[x0 y0] x1] y1]|]; [|done].
  by intros [= <-].
Qed.

Lemma count_matches_init : count_matches Sensor_init.
Proof. reflexivity. Qed.

(** C5.  The compact text is one segment per object, in the record's
    order, joined by a vertical bar; an object with a box gives
    [id:name:min_x,min_y,max_x,max_y], one without gives [id:name:].  The
    record {"7": {"name": "Gizmo", "bbox": [1,1,2,2]}} gives
    [7:Gizmo:1,1,2,2], and without the box it gives [7:Gizmo:]. *)
Theorem serialization_format (objects : list (string * obj_data)) :
  boxes_have_four objects ->
  _bbox_data_serialized objects = Ok (join "|" (segment_text <$> objects)) /\
  (forall id nm a b c d,
     segment_text (id, {| name := nm; bbox := Some [a; b; c; d] |}) =
       id +:+ ":" +:+ nm +:+ ":" +:+
       str a +:+ "," +:+ str b +:+ "," +:+ str c +:+ "," +:+ str d) /\
  (forall id nm,
     segment_text (id, {| name := nm; bbox := None |}) =
       id +:+ ":" +:+ nm +:+ ":" +:+ "") /\
  _bbox_data_serialized
    [("7", {| name := "Gizmo"; bbox := Some [1; 1; 2; 2] |})] =
    Ok "7:Gizmo:1,1,2,2" /\
  _bbox_data_serialized [("7", {| name := "Gizmo"; bbox := None |})] =
    Ok "7:Gizmo:".
Proof.
  intros Hfour. split; [|by vm_compute].
  unfold _bbox_data_serialized. destruct objects as [|entry rest]; [done|].
  by rewrite (serialize_loop _ [] Hfour).
Qed.

Lemma serialization_format_witness :
  _bbox_data_serialized
    [("7", {| name := "Gizmo"; bbox := Some [1; 1; 2; 2] |});
     ("8", {| name := "Widget"; bbox := None |})] =
    Ok "7:Gizmo:1,1,2,2|8:Widget:".
Proof.
  refine (proj1 (serialization_format
            [("7", {| name := "Gizmo"; bbox := Some [1; 1; 2; 2] |});
             ("8", {| name := "Widget"; bbox := None |})] _)).
  repeat constructor; cbn; intros box [= <-]; reflexivity || discriminate.
Defined.

Section Pass.
Variable Image_open : bytes -> result Image.
Variable Image_convert : Image -> string -> result Image.
Variable Image_save : Image -> string -> Z -> result bytes.

(** C6.  With an empty name mapping the pass succeeds and publishes a
    count of 0, no objects and a 0 x 0 image, whatever the host, the image
    entity and the previous state are. *)
Theorem empty_mapping_resets (w : World) :
  _process_plate_data Image_open Image_convert Image_save [] w =
    (Ok (),
     {| sensor := {| _pick_image_entity_id := _pick_image_entity_id (sensor w);
                     _object_count := 0;
                     _objects := [];
                     _image_width := 0;
                     _image_height := 0 |};
        hass := {| image_component := image_component (hass w);
                   entry_data := entry_data (hass w);
                   written_state :=
                     Some (0, {| attr_image_width := 0;
                                 attr_image_height := 0;
                                 attr_objects := [];
                                 attr_bbox_data := "" |}) |} |}).
Proof. reflexivity. Qed.

(** C7.  With a non-empty name mapping, when no image bytes are obtained
    or the extractor raises on them, the pass ends without touching the
    sensor's fields or the state written to the host. *)
Theorem failed_pass_keeps_state (objects_attr : list (string * string))
    (w : World) (entity_id : string) :
  objects_attr <> [] ->
  _pick_image_entity_id (sensor w) = Some entity_id ->
  (_async_get_pick_image w entity_id = None \/
   exists image_bytes e,
     _async_get_pick_image w entity_id = Some image_bytes /\
     compute_bounding_boxes Image_open image_bytes = Raised e) ->
  _process_plate_data Image_open Image_convert Image_save objects_attr w =
    (Ok (), w).
Proof.
  intros Hne Hid Hfail. unfold _process_plate_data.
  destruct objects_attr as [|entry rest]; [done|]. rewrite Hid.
  destruct Hfail as [->|(image_bytes & e & -> & ->)]; done.
Qed.

Lemma merge_length (objects_attr : list (string * string))
    (bboxes : gmap string (list Z)) :
  NoDup objects_attr.*1 ->
  length (merge objects_attr bboxes) = length objects_attr.
Proof. intros Hnd. by rewrite merge_spec, length_fmap. Qed.

Lemma async_write_ha_state_sensor (w : World) :
  sensor (async_write_ha_state w).2 = sensor w.
Proof.
  unfold async_write_ha_state. by destruct (extra_state_attributes (sensor w)).
Qed.

Lemma async_write_ha_state_inv (w : World) :
  count_matches (sensor w) ->
  (forall v attrs, written_state (hass w) = Some (v, attrs) ->
     v = Z.of_nat (length (attr_objects attrs))) ->
  world_inv (async_write_ha_state w).2.
Proof.
  intros Hcount Hold. unfold async_write_ha_state, extra_state_attributes.
  destruct (_bbox_data_serialized (_objects (sensor w))) as [text|e]; cbn.
  - split; [done|]. cbn. intros v attrs [= <- <-]. cbn. exact Hcount.
  - by split.
Qed.

Lemma store_jpeg_sensor (w : World) (jpeg_bytes : bytes) :
  sensor (store_jpeg w jpeg_bytes) = sensor w /\
  written_state (hass (store_jpeg w jpeg_bytes)) = written_state (hass w).
Proof. done. Qed.

(** C10.  The pass keeps the reported count equal to the number of entries
    of the objects map, in the sensor and in the state written to the
    host; after the reset it is 0, and after a pass that got its image and
    its boxes it is the number of entries of the name mapping, boxed or
    not. *)
Theorem count_is_number_of_objects (objects_attr : list (string * string))
    (w : World) :
  NoDup objects_attr.*1 ->
  world_inv w ->
  let w' :=
    (_process_plate_data Image_open Image_convert Image_save objects_attr w).2 in
  world_inv w' /\
  native_value (sensor w') = Z.of_nat (length (_objects (sensor w'))) /\
  (objects_attr = [] -> native_value (sensor w') = 0 /\ _objects (sensor w') = []) /\
  (forall entity_id image_bytes res,
     objects_attr <> [] ->
     _pick_image_entity_id (sensor w) = Some entity_id ->
     _async_get_pick_image w entity_id = Some image_bytes ->
     compute_bounding_boxes Image_open image_bytes = Ok res ->
     _objects (sensor w') = merge objects_attr (bboxes res) /\
     native_value (sensor w') = Z.of_nat (length objects_attr)).
Proof.
  intros Hnd [Hcount Hwritten] w'.
  assert (Hinv : world_inv w').
  { subst w'. unfold _process_plate_data.
    destruct objects_attr as [|entry rest].
    { by apply async_write_ha_state_inv. }
    destruct (_pick_image_entity_id (sensor w)) as [entity_id|]; [|by split].
    destruct (_async_get_pick_image w entity_id) as [image_bytes|]; [|by split].
    destruct (compute_bounding_boxes Image_open image_bytes) as [res|e];
      [|by split].
    apply async_write_ha_state_inv.
    - by destruct (convert_to_jpeg _ _ _ _ _).
    - by destruct (convert_to_jpeg _ _ _ _ _). }
  split; [done|]. split; [apply Hinv|]. split.
  - intros ->. subst w'. unfold _process_plate_data.
    by rewrite async_write_ha_state_sensor.
  - intros entity_id image_bytes res Hne Hid Hfetch Hres. subst w'.
    unfold _process_plate_data.
    destruct objects_attr as [|entry rest]; [done|].
    rewrite Hid, Hfetch, Hres. rewrite async_write_ha_state_sensor.
    unfold native_value.
    destruct (convert_to_jpeg _ _ _ _ _);
      cbn [store_jpeg set_sensor sensor _objects _object_count];
      by rewrite merge_length.
Qed.
End Pass.

Lemma failed_pass_keeps_state_witness :
  _process_plate_data (fixed_decoder rgb_image) convert_luminance stub_save
    [("7", "Gizmo")] sample_world = (Ok (), sample_world).
Proof.
  apply (failed_pass_keeps_state (fixed_decoder rgb_image) convert_luminance
           stub_save [("7", "Gizmo")] sample_world "image.printer_pick_image").
  - discriminate.
  - reflexivity.
  - left. reflexivity.
Defined.

Lemma NoDup_two_names :
  NoDup ([("5649426", "Gizmo"); ("8", "Widget")].*1 : list string).
Proof.
  cbn. repeat constructor; rewrite ?elem_of_cons, ?elem_of_nil;
    intros H; decompose [or] H; discriminate || done.
Qed.

Lemma world_inv_live : world_inv live_world.
Proof. split; [done|]. intros v attrs. discriminate. Qed.

Lemma count_is_number_of_objects_witness :
  native_value
    (sensor
       (_process_plate_data (fixed_decoder (two_pixel_image sample_color))
          convert_luminance stub_save
          [("5649426", "Gizmo"); ("8", "Widget")] live_world).2) = 2.
Proof.
  destruct (scan_image_correct (two_pixel_image sample_color)
              (four_band_two_pixel 18 52 86 255)) as (bb & Hscan & _).
  destruct (count_is_number_of_objects
              (fixed_decoder (two_pixel_image sample_color))
              convert_luminance stub_save
              [("5649426", "Gizmo"); ("8", "Widget")] live_world
              NoDup_two_names world_inv_live) as (_ & _ & _ & Hpass).
  refine (proj2 (Hpass "image.printer_pick_image" some_bytes _ _ eq_refl eq_refl _)).
  - discriminate.
  - exact Hscan.
Defined.

(** * The JPEG normalizer *)

Lemma all_from_spec (f : N -> bool) (count : nat) (start a : N) :
  all_from f count start = true ->
  (start <= a < start + N.of_nat count)%N -> f a = true.
Proof.
  revert start. induction count as [|count IH]; intros start Hall Ha; [lia|].
  cbn [all_from] in Hall. apply andb_true_iff in Hall as [Hhere Hrest].
  destruct (decide (a = start)) as [->|Hne]; [done|].
  apply (IH (N.succ start)); [done|lia].
Qed.

Lemma BLEND8_onto_black (c m : N) :
  (c < 256)%N -> (m < 256)%N -> BLEND8 m 0 c = alpha_blend c m.
Proof.
  intros Hc Hm.
  assert (Hall : all_from (fun c => all_from
            (fun m => (BLEND8 m 0 c =? alpha_blend c m)%N) 256 0%N) 256 0%N
            = true) by (vm_compute; reflexivity).
  pose proof (all_from_spec _ _ _ c Hall) as Hrow. cbn beta in Hrow.
  pose proof (all_from_spec _ _ _ m (Hrow ltac:(lia))) as Hcell.
  cbn beta in Hcell. apply N.eqb_eq, Hcell. lia.
Qed.

Lemma alpha_blend_transparent (c : N) : alpha_blend c 0 = 0%N.
Proof. unfold alpha_blend. rewrite N.mul_0_r. reflexivity. Qed.

Lemma alpha_blend_opaque (c : N) : alpha_blend c 255 = c.
Proof.
  unfold alpha_blend. symmetry.
  apply (N.div_unique _ 255 c 127); lia.
Qed.

Lemma alpha_blend_toward_black (c a : N) :
  (a <= 255)%N -> (alpha_blend c a <= c)%N.
Proof.
  intros Ha. unfold alpha_blend.
  apply N.lt_succ_r, N.Div0.div_lt_upper_bound. nia.
Qed.

(** C8, as the code has it.  A decoded raster whose mode is RGBA is pasted
    through its own alpha band onto a black RGB canvas of the same size:
    every channel becomes the channel scaled by alpha / 255 and rounded,
    so alpha 0 gives black, alpha 255 keeps the colour and anything
    between moves it toward black.  A raster of any mode other than RGBA
    and RGB is handed to the mode conversion, an RGB raster goes through
    unchanged, and what results is encoded as JPEG at the given quality,
    which is 80 when the sensor calls. *)
Theorem jpeg_composites_rgba_on_black (Image_open : bytes -> result Image)
    (Image_convert : Image -> string -> result Image)
    (Image_save : Image -> string -> Z -> result bytes)
    (image_bytes : bytes) (image : Image) (quality : Z) :
  Image_open image_bytes = Ok image ->
  (im_mode image = "RGBA" ->
   exists rgb,
     jpeg_raster Image_convert image = Ok rgb /\
     convert_to_jpeg Image_open Image_convert Image_save image_bytes quality =
       Image_save rgb "JPEG" quality /\
     im_mode rgb = "RGB" /\
     im_size rgb = im_size image /\
     forall x y r g b a,
       im_load image x y = Bands [r; g; b; a] ->
       (r < 256)%N -> (g < 256)%N -> (b < 256)%N -> (a < 256)%N ->
       im_load rgb x y =
         Bands [alpha_blend r a; alpha_blend g a; alpha_blend b a] /\
       (a = 0%N -> im_load rgb x y = Bands [0; 0; 0]%N) /\
       (a = 255%N -> im_load rgb x y = Bands [r; g; b]) /\
       (alpha_blend r a <= r /\ alpha_blend g a <= g /\ alpha_blend b a <= b)%N) /\
  (im_mode image <> "RGBA" -> im_mode image <> "RGB" ->
   jpeg_raster Image_convert image = Image_convert image "RGB" /\
   convert_to_jpeg Image_open Image_convert Image_save image_bytes quality =
     rgb ← Image_convert image "RGB"; Image_save rgb "JPEG" quality) /\
  (im_mode image = "RGB" ->
   convert_to_jpeg Image_open Image_convert Image_save image_bytes quality =
     Image_save image "JPEG" quality) /\
  default_quality = 80.
Proof.
  intros Hopen. unfold convert_to_jpeg. rewrite Hopen.
  cbn [mbind result_bind]. split; [|split; [|split; [|done]]].
  - intros Hmode. unfold jpeg_raster. rewrite decide_True by done.
    unfold split. rewrite Hmode. cbn [mode_bands decide].
    eexists. split; [reflexivity|]. split; [reflexivity|].
    split; [reflexivity|]. split; [reflexivity|].
    intros x y r g b a Hpx Hr Hg Hb Ha.
    assert (Hload : im_load
              (paste (Image_new "RGB" (im_size image) [0; 0; 0]%N) image
                 (band 3 image)) x y =
              Bands [alpha_blend r a; alpha_blend g a; alpha_blend b a]).
    { cbn [paste im_load Image_new band]. rewrite Hpx.
      cbn [paste_pixel lookup list_lookup default]. rewrite N2Z.id.
      by rewrite !BLEND8_onto_black. }
    split; [exact Hload|]. split; [|split].
    + intros ->. by rewrite Hload, !alpha_blend_transparent.
    + intros ->. by rewrite Hload, !alpha_blend_opaque.
    + repeat split; apply alpha_blend_toward_black; lia.
  - intros Hrgba Hrgb. unfold jpeg_raster.
    rewrite decide_False by done. rewrite decide_True by done. done.
  - intros Hmode. unfold jpeg_raster.
    rewrite decide_False by (rewrite Hmode; discriminate).
    rewrite decide_False by (intros Hne; by apply Hne). done.
Qed.

Lemma jpeg_composites_rgba_on_black_witness :
  exists rgb,
    jpeg_raster convert_luminance (two_pixel_image sample_color) = Ok rgb /\
    im_load rgb 5 5 = Bands [18; 52; 86]%N /\
    im_load rgb 0 0 = Bands [0; 0; 0]%N.
Proof.
  destruct (proj1 (jpeg_composites_rgba_on_black
                     (fixed_decoder (two_pixel_image sample_color))
                     convert_luminance stub_save some_bytes
                     (two_pixel_image sample_color) default_quality eq_refl)
              eq_refl) as (rgb & Hraster & _ & _ & _ & Hload).
  exists rgb. split; [exact Hraster|]. split.
  - refine (proj1 (proj2 (proj2
              (Hload 5 5 18%N 52%N 86%N 255%N eq_refl _ _ _ _))) eq_refl);
      reflexivity.
  - refine (proj1 (proj2
              (Hload 0 0 0%N 0%N 0%N 0%N eq_refl _ _ _ _)) eq_refl);
      reflexivity.
Defined.

(** C8 as stated fails: a raster in mode LA has an alpha band, and it is
    converted, not composited; its transparent white pixel comes out
    white. *)
Lemma jpeg_converts_other_alpha_modes :
  has_alpha_channel (im_mode la_image) = true /\
  alpha_of (im_load la_image 0 0) = Some 0%N /\
  (exists rgb,
     jpeg_raster convert_luminance la_image = Ok rgb /\
     im_load rgb 0 0 = Bands [255; 255; 255]%N) /\
  ~ (forall (Image_convert : Image -> string -> result Image) image rgb x y,
       has_alpha_channel (im_mode image) = true ->
       jpeg_raster Image_convert image = Ok rgb ->
       in_image image x y ->
       alpha_of (im_load image x y) = Some 0%N ->
       im_load rgb x y = Bands [0; 0; 0]%N).
Proof.
  split; [by vm_compute|]. split; [done|]. split.
  - eexists. split; [by vm_compute|done].
  - intros Hall.
    eassert (Hraster : jpeg_raster convert_luminance la_image = Ok _)
      by (vm_compute; reflexivity).
    specialize (Hall convert_luminance la_image _ 0 0 eq_refl Hraster).
    assert (Hin : in_image la_image 0 0) by (unfold in_image; cbn; lia).
    specialize (Hall Hin eq_refl). vm_compute in Hall. discriminate.
Qed.

(** * Further properties of the extractor *)

Lemma scan_image_Ok (image : Image) (res : analysis) :
  scan_image image = Ok res ->
  image_width res = (im_size image).1 /\
  image_height res = (im_size image).2 /\
  boxes_correct image (bboxes res).
Proof.
  rewrite scan_image_flat. intros Hscan.
  destruct (scan_from_spec (im_load image)
              (scan_order (im_size image).1 (im_size image).2) []
              scan_init (scan_inv_init _))
    as [(st & Hrun & Hinv)|(e & x & y & Hrun & _)];
    rewrite Hrun in Hscan; [|done].
  injection Hscan as <-. cbn. split; [done|]. split; [done|].
  by apply scan_inv_boxes_correct.
Qed.

Lemma tight_box_unique (P : Z -> Z -> Prop) (box1 box2 : list Z) :
  tight_box P box1 -> tight_box P box2 -> box1 = box2.
Proof.
  intros (a0 & b0 & a1 & b1 & -> & Hall1 & [ya Hya] & [xb Hxb] & [yc Hyc] & [xd Hxd])
         (c0 & d0 & c1 & d1 & -> & Hall2 & [ya' Hya'] & [xb' Hxb'] & [yc' Hyc'] & [xd' Hxd']).
  apply Hall2 in Hya, Hxb, Hyc, Hxd. apply Hall1 in Hya', Hxb', Hyc', Hxd'.
  repeat f_equal; lia.
Qed.

(** X1.  Every box the extractor returns has four entries
    [x0; y0; x1; y1] with 0 <= x0 <= x1 < width and
    0 <= y0 <= y1 < height. *)
Theorem boxes_lie_within_image (Image_open : bytes -> result Image)
    (image_bytes : bytes) (image : Image) (res : analysis)
    (id : string) (box : list Z) :
  Image_open image_bytes = Ok image ->
  compute_bounding_boxes Image_open image_bytes = Ok res ->
  bboxes res !! id = Some box ->
  exists x0 y0 x1 y1,
    box = [x0; y0; x1; y1] /\
    0 <= x0 <= x1 /\ x1 < image_width res /\
    0 <= y0 <= y1 /\ y1 < image_height res.
Proof.
  intros Hopen Hres Hlook.
  rewrite (compute_bounding_boxes_decoded _ _ _ Hopen) in Hres.
  apply scan_image_Ok in Hres as (-> & -> & Hbb).
  specialize (Hbb id). rewrite Hlook in Hbb.
  destruct Hbb as (x0 & y0 & x1 & y1 & -> & Hall
                   & [ya [Hina _]] & [xb [Hinb _]] & [yc [Hinc Hc]] & [xd [Hind Hd]]).
  exists x0, y0, x1, y1. split; [done|].
  pose proof (Hall x1 yc (conj Hinc Hc)). pose proof (Hall xd y1 (conj Hind Hd)).
  unfold in_image in *. lia.
Qed.

Lemma boxes_lie_within_image_witness :
  exists x0 y0 x1 y1,
    [5; 2; 10; 5] = [x0; y0; x1; y1] /\
    0 <= x0 <= x1 /\ x1 < 11 /\ 0 <= y0 <= y1 /\ y1 < 6.
Proof.
  refine (boxes_lie_within_image
            (fixed_decoder (two_pixel_image sample_color)) some_bytes
            (two_pixel_image sample_color)
            {| image_width := 11; image_height := 6;
               bboxes := {["5649426" := [5; 2; 10; 5]]} |}
            "5649426" [5; 2; 10; 5] eq_refl _ _).
  - by vm_compute.
  - by vm_compute.
Defined.

Lemma bgr_pack_inj (r g b r' g' b' : N) :
  (r < 256)%N -> (g < 256)%N -> (r' < 256)%N -> (g' < 256)%N ->
  bgr_pack r g b = bgr_pack r' g' b' -> r = r' /\ g = g' /\ b = b'.
Proof. unfold bgr_pack. lia. Qed.

(** X2.  On 8-bit channels the identifier determines the colour: two RGB
    triples with the same identifier are the same triple, so two pixels
    of different colour never share a key of the map. *)
Theorem identifier_determines_color (r g b r' g' b' : N) (id : string) :
  (r < 256)%N -> (g < 256)%N -> (b < 256)%N ->
  (r' < 256)%N -> (g' < 256)%N -> (b' < 256)%N ->
  identify_id_of r g b = Ok id ->
  identify_id_of r' g' b' = Ok id ->
  r = r' /\ g = g' /\ b = b'.
Proof.
  intros Hr Hg Hb Hr' Hg' Hb'.
  rewrite (identify_id_of_bytes r g b), (identify_id_of_bytes r' g' b') by done.
  intros [= <-] [= Heq]. unfold str in Heq.
  apply (inj pretty), (inj Z.of_N) in Heq. symmetry in Heq.
  by apply bgr_pack_inj in Heq.
Qed.

Lemma identifier_determines_color_witness :
  18%N = 18%N /\ 52%N = 52%N /\ 86%N = 86%N.
Proof.
  apply (identifier_determines_color 18 52 86 18 52 86 "5649426");
    reflexivity.
Defined.

(** X3.  On a raster whose channels are all below 256, every key of the
    returned map is the decimal text of a number below 2^24. *)
Theorem identifiers_are_24_bit (Image_open : bytes -> result Image)
    (image_bytes : bytes) (image : Image) (res : analysis)
    (id : string) (box : list Z) :
  Image_open image_bytes = Ok image ->
  eight_bit image ->
  compute_bounding_boxes Image_open image_bytes = Ok res ->
  bboxes res !! id = Some box ->
  exists n : Z, 0 <= n < 16777216 /\ id = str n.
Proof.
  intros Hopen Hbits Hres Hlook.
  rewrite (compute_bounding_boxes_decoded _ _ _ Hopen) in Hres.
  apply scan_image_Ok in Hres as (_ & _ & Hbb).
  specialize (Hbb id). rewrite Hlook in Hbb.
  destruct Hbb as (x0 & y0 & _ & _ & _ & _ & [y [Hin Hid]] & _).
  unfold pixel_id in Hid.
  destruct (unpack4 (im_load image x0 y)) as [[[[r g] b] a]|e] eqn:Hun; [|done].
  apply unpack4_Ok in Hun. specialize (Hbits x0 y _ Hin Hun).
  apply Forall_cons in Hbits as [Hr Hbits].
  apply Forall_cons in Hbits as [Hg Hbits].
  apply Forall_cons in Hbits as [Hb _].
  rewrite (identify_id_of_bytes r g b) in Hid by done.
  destruct (a =? 0)%N; [done|]. injection Hid as <-.
  exists (Z.of_N (bgr_pack r g b)). split; [unfold bgr_pack; lia|done].
Qed.

Lemma eight_bit_two_pixel_sample : eight_bit (two_pixel_image sample_color).
Proof.
  intros x y cs _. cbn. unfold sample_color, transparent.
  repeat case_decide; intros [= <-]; repeat constructor.
Qed.

Lemma identifiers_are_24_bit_witness :
  exists n : Z, 0 <= n < 16777216 /\ "5649426" = str n.
Proof.
  refine (identifiers_are_24_bit
            (fixed_decoder (two_pixel_image sample_color)) some_bytes
            (two_pixel_image sample_color)
            {| image_width := 11; image_height := 6;
               bboxes := {["5649426" := [5; 2; 10; 5]]} |}
            "5649426" [5; 2; 10; 5] eq_refl eight_bit_two_pixel_sample _ _).
  - by vm_compute.
  - by vm_compute.
Defined.

Lemma scan_from_Ok_unpacks (pixels : Z -> Z -> pixel) (coords : list (Z * Z))
    (st st' : scan_state) :
  scan_from pixels st coords = Ok st' ->
  forall x y, (x, y) ∈ coords -> exists c, unpack4 (pixels x y) = Ok c.
Proof.
  revert st. induction coords as [|[x0 y0] coords IH]; intros st Hrun x y Hin.
  { by apply elem_of_nil in Hin. }
  unfold scan_from in Hrun. cbn [for_each] in Hrun.
  destruct (scan_pixel pixels y0 st x0) as [st1|e] eqn:Hstep; [|done].
  apply elem_of_cons in Hin as [[= -> ->]|Hin].
  - unfold scan_pixel in Hstep.
    destruct (unpack4 (pixels x0 y0)) as [c|e]; [by exists c|done].
  - by apply (IH st1).
Qed.

Lemma scan_from_permutation (pixels : Z -> Z -> pixel)
    (coords coords' : list (Z * Z)) (st : scan_state) :
  coords ≡ₚ coords' ->
  scan_from pixels scan_init coords = Ok st ->
  exists st',
    scan_from pixels scan_init coords' = Ok st' /\
    st_bboxes st' = st_bboxes st.
Proof.
  intros Hperm Hrun.
  destruct (scan_from_spec pixels coords [] scan_init (scan_inv_init _))
    as [(st0 & Hrun0 & [_ Hbox])|(e & x & y & Hrun0 & _)]; [|congruence].
  assert (st0 = st) as -> by congruence. cbn [app] in Hbox.
  destruct (scan_from_spec pixels coords' [] scan_init (scan_inv_init _))
    as [(st' & Hrun' & [_ Hbox'])|(e & x & y & _ & Hin & He)].
  - exists st'. split; [done|]. cbn [app] in Hbox'.
    apply map_eq. intros id. rewrite Hbox, Hbox'.
    assert (Hpts : points_of pixels id coords ≡ₚ points_of pixels id coords').
    { unfold points_of. by rewrite Hperm. }
    destruct (box_of (points_of pixels id coords)) as [b|] eqn:Hb,
             (box_of (points_of pixels id coords')) as [b'|] eqn:Hb'; cbn.
    + f_equal. apply box_of_tight in Hb, Hb'.
      eapply tight_box_unique; [|exact Hb].
      revert Hb'. apply tight_box_iff. intros x y. by rewrite Hpts.
    + apply box_of_None in Hb'. rewrite Hb' in Hpts.
      apply Permutation_nil_r in Hpts. by rewrite Hpts in Hb.
    + apply box_of_None in Hb. rewrite Hb in Hpts.
      symmetry in Hpts. apply Permutation_nil_r in Hpts. by rewrite Hpts in Hb'.
    + done.
  - rewrite <- Hperm in Hin.
    destruct (scan_from_Ok_unpacks _ _ _ _ Hrun x y Hin) as [c Hc]. congruence.
Qed.

(** X4.  The order in which the pixels are visited does not matter: when
    the extractor returns a map for an image, visiting the pixels of the
    image in any other order ends as well, with the same map. *)
Theorem scan_order_is_irrelevant (image : Image) (res : analysis)
    (coords : list (Z * Z)) :
  scan_image image = Ok res ->
  coords ≡ₚ scan_order (im_size image).1 (im_size image).2 ->
  exists st,
    scan_from (im_load image) scan_init coords = Ok st /\
    st_bboxes st = bboxes res.
Proof.
  rewrite scan_image_flat. intros Hscan Hperm.
  destruct (scan_from (im_load image) scan_init
              (scan_order (im_size image).1 (im_size image).2))
    as [st0|e] eqn:Hrun; [|done].
  injection Hscan as <-. cbn [bboxes]. symmetry in Hperm.
  apply (scan_from_permutation _ _ _ _ Hperm Hrun).
Qed.

Lemma scan_order_is_irrelevant_witness :
  exists st,
    scan_from (im_load (two_pixel_image sample_color)) scan_init
      (reverse (scan_order 11 6)) = Ok st /\
    st_bboxes st = {["5649426" := [5; 2; 10; 5]]}.
Proof.
  refine (scan_order_is_irrelevant (two_pixel_image sample_color)
            {| image_width := 11; image_height := 6;
               bboxes := {["5649426" := [5; 2; 10; 5]]} |}
            (reverse (scan_order 11 6)) _ _).
  - by vm_compute.
  - apply reverse_Permutation.
Defined.

Lemma scan_order_empty (w h : Z) : w <= 0 \/ h <= 0 -> scan_order w h = [].
Proof.
  intros Hwh. apply elem_of_nil_inv. intros [x y] Hin%elem_of_scan_order. lia.
Qed.

(** X5.  A raster without pixels (width or height not positive) gives
    its size and the empty map, whatever its mode. *)
Theorem empty_raster_gives_empty_map (Image_open : bytes -> result Image)
    (image_bytes : bytes) (image : Image) :
  Image_open image_bytes = Ok image ->
  (im_size image).1 <= 0 \/ (im_size image).2 <= 0 ->
  compute_bounding_boxes Image_open image_bytes =
    Ok {| image_width := (im_size image).1;
          image_height := (im_size image).2;
          bboxes := ∅ |}.
Proof.
  intros Hopen Hempty.
  rewrite (compute_bounding_boxes_decoded _ _ _ Hopen), scan_image_flat.
  by rewrite scan_order_empty.
Qed.

Lemma empty_raster_gives_empty_map_witness :
  compute_bounding_boxes
    (fixed_decoder {| im_mode := "RGB"; im_size := (0, 4);
                      im_load := fun _ _ => Scalar 0 |}) some_bytes =
    Ok {| image_width := 0; image_height := 4; bboxes := ∅ |}.
Proof.
  apply (empty_raster_gives_empty_map
           (fixed_decoder {| im_mode := "RGB"; im_size := (0, 4);
                             im_load := fun _ _ => Scalar 0 |})
           some_bytes
           {| im_mode := "RGB"; im_size := (0, 4);
              im_load := fun _ _ => Scalar 0 |} eq_refl).
  left. cbn. lia.
Defined.

(** X6.  The scan stops at the first pixel, in row-major order, that is
    not a four-tuple, and raises that pixel's error: [TypeError] for a
    single-band value, [ValueError] for a tuple of another length. *)
Theorem first_bad_pixel_raises (Image_open : bytes -> result Image)
    (image_bytes : bytes) (image : Image) (pre post : list (Z * Z))
    (x y : Z) (e : exn) :
  Image_open image_bytes = Ok image ->
  scan_order (im_size image).1 (im_size image).2 = pre ++ (x, y) :: post ->
  (forall x' y', (x', y') ∈ pre ->
     exists c, unpack4 (im_load image x' y') = Ok c) ->
  unpack4 (im_load image x y) = Raised e ->
  compute_bounding_boxes Image_open image_bytes = Raised e /\
  (forall v, im_load image x y = Scalar v -> e = TypeError) /\
  (forall cs, im_load image x y = Bands cs ->
     e = ValueError /\ length cs <> 4%nat).
Proof.
  intros Hopen Hsplit Hpre Hbad. split; [|split].
  - rewrite (compute_bounding_boxes_decoded _ _ _ Hopen), scan_image_flat.
    rewrite Hsplit. unfold scan_from. rewrite for_each_app.
    fold (scan_from (im_load image) scan_init pre).
    destruct (scan_from_spec (im_load image) pre [] scan_init (scan_inv_init _))
      as [(st & -> & _)|(e' & x' & y' & _ & Hin & He')].
    + cbn [mbind result_bind for_each]. unfold scan_pixel. by rewrite Hbad.
    + destruct (Hpre x' y' Hin) as [c Hc]. congruence.
  - intros v Hpx. rewrite Hpx in Hbad. cbn in Hbad. congruence.
  - intros cs Hpx. rewrite Hpx in Hbad.
    destruct cs as [|? [|? [|? [|? [|? ?]]]]]; cbn in Hbad;
      (split; [congruence|done]).
Qed.

Lemma first_bad_pixel_raises_witness :
  compute_bounding_boxes (fixed_decoder rgb_image) some_bytes =
    Raised ValueError.
Proof.
  refine (proj1 (first_bad_pixel_raises (fixed_decoder rgb_image) some_bytes
                   rgb_image [] [] 0 0 ValueError eq_refl eq_refl _ eq_refl)).
  intros x' y' Hin. by apply elem_of_nil in Hin.
Defined.

(** * Further properties of the serializer *)

Lemma serialize_object_cases (id : string) (obj : obj_data) :
  (short_box (id, obj) /\ serialize_object id obj = Raised IndexError) \/
  (~ short_box (id, obj) /\ exists text, serialize_object id obj = Ok text).
Proof.
  unfold short_box, serialize_object. cbn [snd].
  destruct (bbox obj) as [[|a [|b [|c [|d rest]]]]|] eqn:Hb.
  - right. split; [|by eexists]. intros (box & [= <-] & Hlen). cbn in Hlen. lia.
  - left. split; [|done]. eexists. split; [done|]. cbn. lia.
  - left. split; [|done]. eexists. split; [done|]. cbn. lia.
  - left. split; [|done]. eexists. split; [done|]. cbn. lia.
  - right. split; [|by eexists]. intros (box & [= <-] & Hlen). cbn in Hlen. lia.
  - right. split; [|by eexists]. by intros (box & [=] & _).
Qed.

Lemma serialize_loop_cases (objects : list (string * obj_data))
    (parts : list string) :
  let loop :=
    for_each objects
      (fun parts '(identify_id, obj_data) =>
         part ← serialize_object identify_id obj_data;
         mret (parts ++ [part]))
      parts in
  (Exists short_box objects /\ loop = Raised IndexError) \/
  (~ Exists short_box objects /\ exists parts', loop = Ok parts').
Proof.
  revert parts. induction objects as [|[id obj] rest IH]; intros parts; cbn zeta.
  - right. split; [by intros ?%Exists_nil|by eexists].
  - cbn [for_each].
    destruct (serialize_object_cases id obj) as [[Hshort ->]|[Hok [text ->]]].
    + left. split; [by left|done].
    + cbn [mbind result_bind mret result_ret].
      destruct (IH (parts ++ [text])) as [[Hex Hloop]|[Hno [parts' Hloop]]].
      * left. split; [by right|done].
      * right. split; [|by exists parts'].
        intros [?|?]%Exists_cons; done.
Qed.

(** X7.  The serializer can only fail with [IndexError], and it does so
    exactly when some object carries a box of one, two or three entries;
    a missing box and an empty box both serialize. *)
Theorem serializer_fails_only_on_short_boxes
    (objects : list (string * obj_data)) :
  (_bbox_data_serialized objects = Raised IndexError <->
   Exists short_box objects) /\
  (Exists short_box objects \/
   exists text, _bbox_data_serialized objects = Ok text).
Proof.
  unfold _bbox_data_serialized.
  destruct objects as [|entry rest].
  { split; [|right; by eexists]. split; [done|by intros ?%Exists_nil]. }
  destruct (serialize_loop_cases (entry :: rest) [])
    as [[Hex Hloop]|[Hno [parts Hloop]]]; cbn zeta in Hloop; rewrite Hloop.
  - split; [done|by left].
  - split; [|right; by eexists]. split; [done|]. intros Hex. by destruct Hno.
Qed.

Lemma string_app_assoc (s1 s2 s3 : string) :
  (s1 +:+ s2) +:+ s3 = s1 +:+ (s2 +:+ s3).
Proof.
  induction s1 as [|c s1 IH]; [done|].
  change ((String c s1 +:+ s2) +:+ s3) with (String c ((s1 +:+ s2) +:+ s3)).
  change (String c s1 +:+ (s2 +:+ s3)) with (String c (s1 +:+ (s2 +:+ s3))).
  by rewrite IH.
Qed.

(** X8.  Names are written as they are, without escaping: one object
    whose name contains the separators reads exactly like two objects. *)
Theorem names_are_not_escaped (id1 name1 id2 name2 : string) :
  _bbox_data_serialized
    [(id1, {| name := name1 +:+ ":|" +:+ id2 +:+ ":" +:+ name2;
              bbox := None |})] =
  _bbox_data_serialized
    [(id1, {| name := name1; bbox := None |});
     (id2, {| name := name2; bbox := None |})].
Proof.
  cbn. f_equal. by rewrite !string_app_assoc.
Qed.

(** * Further properties of the analysis pass *)

Lemma serialized_text (objects : list (string * obj_data)) :
  boxes_have_four objects ->
  _bbox_data_serialized objects = Ok (join "|" (segment_text <$> objects)).
Proof.
  intros Hfour. unfold _bbox_data_serialized.
  destruct objects as [|entry rest]; [done|].
  by rewrite (serialize_loop _ [] Hfour).
Qed.

Section PassMore.
Variable Image_open : bytes -> result Image.
Variable Image_convert : Image -> string -> result Image.
Variable Image_save : Image -> string -> Z -> result bytes.

Lemma compute_boxes_have_four (image_bytes : bytes) (res : analysis)
    (objects_attr : list (string * string)) :
  compute_bounding_boxes Image_open image_bytes = Ok res ->
  NoDup objects_attr.*1 ->
  boxes_have_four (merge objects_attr (bboxes res)).
Proof.
  unfold compute_bounding_boxes.
  destruct (Image_open image_bytes) as [image|e]; [|done].
  apply scan_boxes_have_four.
Qed.

Lemma successful_pass_world (objects_attr : list (string * string))
    (w : World) (entity_id : string) (image_bytes : bytes) (res : analysis) :
  objects_attr <> [] ->
  NoDup objects_attr.*1 ->
  _pick_image_entity_id (sensor w) = Some entity_id ->
  _async_get_pick_image w entity_id = Some image_bytes ->
  compute_bounding_boxes Image_open image_bytes = Ok res ->
  let merged := merge objects_attr (bboxes res) in
  _process_plate_data Image_open Image_convert Image_save objects_attr w =
    (Ok (),
     {| sensor := {| _pick_image_entity_id := Some entity_id;
                     _object_count := Z.of_nat (length objects_attr);
                     _objects := merged;
                     _image_width := image_width res;
                     _image_height := image_height res |};
        hass := {| image_component := image_component (hass w);
                   entry_data :=
                     match entry_data (hass w),
                           convert_to_jpeg Image_open Image_convert Image_save
                             image_bytes 80 with
                     | Some _, Ok jpeg_bytes => Some (Some jpeg_bytes)
                     | stored, _ => stored
                     end;
                   written_state :=
                     Some (Z.of_nat (length objects_attr),
                           {| attr_image_width := image_width res;
                              attr_image_height := image_height res;
                              attr_objects := merged;
                              attr_bbox_data :=
                                join "|" (segment_text <$> merged) |}) |} |}).
Proof.
  intros Hne Hnd Hid Hfetch Hres merged.
  pose proof (compute_boxes_have_four _ _ _ Hres Hnd) as Hfour.
  fold merged in Hfour.
  unfold _process_plate_data.
  destruct objects_attr as [|entry rest]; [done|].
  rewrite Hid, Hfetch, Hres. fold merged.
  unfold async_write_ha_state, extra_state_attributes, default_quality.
  assert (Hlen : length merged = length (entry :: rest))
    by (by apply merge_length).
  destruct (convert_to_jpeg _ _ _ image_bytes 80) as [jpeg|e];
    cbn [sensor store_jpeg set_sensor _objects hass];
    rewrite (serialized_text merged Hfour);
    cbn [mbind result_bind mret result_ret]; unfold native_value;
    cbn [_object_count _image_width _image_height _objects sensor hass
         image_component entry_data written_state];
    rewrite Hlen; [|by destruct (entry_data (hass w))].
  by destruct (entry_data (hass w)).
Qed.

(** X9.  A pass that gets its image and its boxes returns normally and
    publishes the whole analysis: the size of the image, the merged
    record, its length as the count and its compact text.  The stored
    JPEG is replaced when the conversion succeeds and the entry exists;
    when the conversion raises, the analysis is published all the same
    and the stored JPEG stays. *)
Theorem successful_pass_publishes (objects_attr : list (string * string))
    (w : World) (entity_id : string) (image_bytes : bytes) (res : analysis) :
  objects_attr <> [] ->
  NoDup objects_attr.*1 ->
  _pick_image_entity_id (sensor w) = Some entity_id ->
  _async_get_pick_image w entity_id = Some image_bytes ->
  compute_bounding_boxes Image_open image_bytes = Ok res ->
  let merged := merge objects_attr (bboxes res) in
  _process_plate_data Image_open Image_convert Image_save objects_attr w =
    (Ok (),
     {| sensor := {| _pick_image_entity_id := Some entity_id;
                     _object_count := Z.of_nat (length objects_attr);
                     _objects := merged;
                     _image_width := image_width res;
                     _image_height := image_height res |};
        hass := {| image_component := image_component (hass w);
                   entry_data :=
                     match entry_data (hass w),
                           convert_to_jpeg Image_open Image_convert Image_save
                             image_bytes 80 with
                     | Some _, Ok jpeg_bytes => Some (Some jpeg_bytes)
                     | stored, _ => stored
                     end;
                   written_state :=
                     Some (Z.of_nat (length objects_attr),
                           {| attr_image_width := image_width res;
                              attr_image_height := image_height res;
                              attr_objects := merged;
                              attr_bbox_data :=
                                join "|" (segment_text <$> merged) |}) |} |}).
Proof. apply successful_pass_world. Qed.

(** X10.  The pass raises only through its assertion: with a non-empty
    mapping and no resolved pick-image entity it raises [AssertionError]
    and changes nothing; in every other case it returns normally. *)
Theorem pass_raises_only_unresolved (objects_attr : list (string * string))
    (w : World) :
  NoDup objects_attr.*1 ->
  match objects_attr, _pick_image_entity_id (sensor w) with
  | _ :: _, None =>
      _process_plate_data Image_open Image_convert Image_save objects_attr w =
        (Raised AssertionError, w)
  | _, _ =>
      (_process_plate_data Image_open Image_convert Image_save
         objects_attr w).1 = Ok ()
  end.
Proof.
  intros Hnd. destruct objects_attr as [|entry rest]; [done|].
  destruct (_pick_image_entity_id (sensor w)) as [entity_id|] eqn:Hid;
    [|unfold _process_plate_data; by rewrite Hid].
  destruct (_async_get_pick_image w entity_id) as [image_bytes|] eqn:Hfetch;
    [|unfold _process_plate_data; by rewrite Hid, Hfetch].
  destruct (compute_bounding_boxes Image_open image_bytes) as [res|e] eqn:Hres;
    [|unfold _process_plate_data; by rewrite Hid, Hfetch, Hres].
  by rewrite (successful_pass_world (entry :: rest) w entity_id
                image_bytes res).
Qed.
Lemma fetch_depends_on_component (w w' : World) (entity_id : string) :
  image_component (hass w') = image_component (hass w) ->
  _async_get_pick_image w' entity_id = _async_get_pick_image w entity_id.
Proof. intros Heq. unfold _async_get_pick_image. by rewrite Heq. Qed.

Lemma pass_twice (objects_attr : list (string * string)) (w : World) :
  NoDup objects_attr.*1 ->
  _process_plate_data Image_open Image_convert Image_save objects_attr
    (_process_plate_data Image_open Image_convert Image_save objects_attr w).2 =
  _process_plate_data Image_open Image_convert Image_save objects_attr w.
Proof.
  intros Hnd. destruct objects_attr as [|entry rest]; [done|].
  destruct (_pick_image_entity_id (sensor w)) as [entity_id|] eqn:Hid.
  2:{ unfold _process_plate_data. rewrite Hid. cbn [snd]. by rewrite Hid. }
  destruct (_async_get_pick_image w entity_id) as [image_bytes|] eqn:Hfetch.
  2:{ unfold _process_plate_data. rewrite Hid, Hfetch. cbn [snd].
      by rewrite Hid, Hfetch. }
  destruct (compute_bounding_boxes Image_open image_bytes) as [res|e] eqn:Hres.
  2:{ unfold _process_plate_data. rewrite Hid, Hfetch, Hres. cbn [snd].
      by rewrite Hid, Hfetch, Hres. }
  rewrite (successful_pass_world (entry :: rest) w entity_id image_bytes res)
    by done.
  cbn [snd].
  erewrite (successful_pass_world (entry :: rest) _ entity_id image_bytes res);
    [|done|done|done|by erewrite fetch_depends_on_component|done].
  cbn [hass image_component entry_data].
  do 3 f_equal.
  destruct (entry_data (hass w)),
           (convert_to_jpeg Image_open Image_convert Image_save image_bytes 80);
    done.
Qed.

(** X11.  The pass does not accumulate: run a second time with the same
    mapping, the same image and the same codecs, it returns as the first
    run did and leaves the same sensor fields, the same state written to
    the host and the same stored JPEG bytes.  (The time stamp the code
    writes beside the JPEG is no part of this statement.) *)
Theorem pass_is_idempotent (objects_attr : list (string * string)) (w : World) :
  NoDup objects_attr.*1 ->
  let first :=
    _process_plate_data Image_open Image_convert Image_save objects_attr w in
  let second :=
    _process_plate_data Image_open Image_convert Image_save objects_attr
      first.2 in
  second.1 = first.1 /\
  sensor second.2 = sensor first.2 /\
  written_state (hass second.2) = written_state (hass first.2) /\
  served_image second.2 = served_image first.2.
Proof. intros Hnd. cbn zeta. by rewrite pass_twice. Qed.

(** X12.  The JPEG the image entity serves changes in one case only.  A
    reset, an unresolved entity, a failed fetch, a failed analysis and a
    failed conversion all leave it as it was; a pass that gets its image
    and its boxes and whose conversion succeeds replaces it by the
    converted bytes when the entry's slot exists, and leaves nothing to
    serve when it does not. *)
Theorem served_image_is_latest_conversion
    (objects_attr : list (string * string)) (w : World) :
  NoDup objects_attr.*1 ->
  let w' :=
    (_process_plate_data Image_open Image_convert Image_save objects_attr w).2 in
  (objects_attr = [] -> served_image w' = served_image w) /\
  (_pick_image_entity_id (sensor w) = None -> served_image w' = served_image w) /\
  (forall entity_id,
     _pick_image_entity_id (sensor w) = Some entity_id ->
     _async_get_pick_image w entity_id = None ->
     served_image w' = served_image w) /\
  (forall entity_id image_bytes e,
     _pick_image_entity_id (sensor w) = Some entity_id ->
     _async_get_pick_image w entity_id = Some image_bytes ->
     compute_bounding_boxes Image_open image_bytes = Raised e ->
     served_image w' = served_image w) /\
  (forall entity_id image_bytes res,
     objects_attr <> [] ->
     _pick_image_entity_id (sensor w) = Some entity_id ->
     _async_get_pick_image w entity_id = Some image_bytes ->
     compute_bounding_boxes Image_open image_bytes = Ok res ->
     match convert_to_jpeg Image_open Image_convert Image_save image_bytes
             default_quality with
     | Raised _ => served_image w' = served_image w
     | Ok jpeg_bytes =>
         served_image w' =
           match entry_data (hass w) with
           | Some _ => Some jpeg_bytes
           | None => None
           end
     end).
Proof.
  intros Hnd w'. subst w'.
  assert (Hreset : served_image
            (_process_plate_data Image_open Image_convert Image_save [] w).2 =
            served_image w).
  { unfold _process_plate_data, async_write_ha_state. by cbn. }
  split; [by intros ->|]. split; [|split; [|split]].
  - intros Hid. destruct objects_attr as [|entry rest]; [done|].
    unfold _process_plate_data. by rewrite Hid.
  - intros entity_id Hid Hfetch. destruct objects_attr as [|entry rest]; [done|].
    unfold _process_plate_data. by rewrite Hid, Hfetch.
  - intros entity_id image_bytes e Hid Hfetch Hres.
    destruct objects_attr as [|entry rest]; [done|].
    unfold _process_plate_data. by rewrite Hid, Hfetch, Hres.
  - intros entity_id image_bytes res Hne Hid Hfetch Hres.
    rewrite (successful_pass_world objects_attr w entity_id image_bytes res)
      by done.
    unfold served_image, default_quality. cbn [snd hass entry_data].
    destruct (convert_to_jpeg Image_open Image_convert Image_save image_bytes 80)
      as [jpeg|e]; by destruct (entry_data (hass w)).
Qed.
End PassMore.

Lemma two_pixel_analysis :
  compute_bounding_boxes (fixed_decoder (two_pixel_image sample_color))
    some_bytes =
    Ok {| image_width := 11; image_height := 6;
          bboxes := {["5649426" := [5; 2; 10; 5]]} |}.
Proof. by vm_compute. Qed.

Lemma successful_pass_publishes_witness :
  exists w',
    _process_plate_data (fixed_decoder (two_pixel_image sample_color))
      convert_luminance stub_save
      [("5649426", "Gizmo"); ("8", "Widget")] live_world = (Ok (), w') /\
    attr_bbox_data <$> (snd <$> written_state (hass w')) =
      Some "5649426:Gizmo:5,2,10,5|8:Widget:".
Proof.
  eexists. split.
  - refine (successful_pass_publishes
              (fixed_decoder (two_pixel_image sample_color))
              convert_luminance stub_save
              [("5649426", "Gizmo"); ("8", "Widget")] live_world
              "image.printer_pick_image" some_bytes _ _ NoDup_two_names
              eq_refl eq_refl two_pixel_analysis).
    discriminate.
  - by vm_compute.
Defined.

Lemma pass_raises_only_unresolved_witness :
  (_process_plate_data (fixed_decoder (two_pixel_image sample_color))
     convert_luminance stub_save
     [("5649426", "Gizmo"); ("8", "Widget")] live_world).1 = Ok ().
Proof.
  exact (pass_raises_only_unresolved
           (fixed_decoder (two_pixel_image sample_color))
           convert_luminance stub_save
           [("5649426", "Gizmo"); ("8", "Widget")] live_world
           NoDup_two_names).
Defined.

Lemma pass_is_idempotent_witness :
  sensor
    (_process_plate_data (fixed_decoder (two_pixel_image sample_color))
       convert_luminance stub_save [("5649426", "Gizmo"); ("8", "Widget")]
       (_process_plate_data (fixed_decoder (two_pixel_image sample_color))
          convert_luminance stub_save
          [("5649426", "Gizmo"); ("8", "Widget")] live_world).2).2 =
  sensor
    (_process_plate_data (fixed_decoder (two_pixel_image sample_color))
       convert_luminance stub_save
       [("5649426", "Gizmo"); ("8", "Widget")] live_world).2.
Proof.
  exact (proj1 (proj2 (pass_is_idempotent
           (fixed_decoder (two_pixel_image sample_color))
           convert_luminance stub_save
           [("5649426", "Gizmo"); ("8", "Widget")] live_world
           NoDup_two_names))).
Defined.

Lemma served_image_is_latest_conversion_witness :
  served_image
    (_process_plate_data (fixed_decoder (two_pixel_image sample_color))
       convert_luminance stub_save
       [("5649426", "Gizmo"); ("8", "Widget")] live_world).2 =
    Some [Byte.xff; Byte.xd8; Byte.xff; Byte.xd9].
Proof.
  refine (proj2 (proj2 (proj2 (proj2 (served_image_is_latest_conversion
            (fixed_decoder (two_pixel_image sample_color))
            convert_luminance stub_save
            [("5649426", "Gizmo"); ("8", "Widget")] live_world
            NoDup_two_names))))
          "image.printer_pick_image" some_bytes _ _ eq_refl eq_refl
          two_pixel_analysis).
  discriminate.
Defined.

(** * The normalizer and the extractor on one image *)

Lemma jpeg_raster_rgba (Image_convert : Image -> string -> result Image)
    (image : Image) :
  im_mode image = "RGBA" ->
  jpeg_raster Image_convert image =
    Ok (paste (Image_new "RGB" (im_size image) [0; 0; 0]%N) image
          (band 3 image)).
Proof.
  intros Hmode. unfold jpeg_raster. rewrite decide_True by done.
  unfold split. by rewrite Hmode.
Qed.

Lemma paste_on_black_pixel (image : Image) (x y : Z) (r g b a : N) :
  im_load image x y = Bands [r; g; b; a] ->
  (r < 256)%N -> (g < 256)%N -> (b < 256)%N -> (a < 256)%N ->
  im_load (paste (Image_new "RGB" (im_size image) [0; 0; 0]%N) image
             (band 3 image)) x y =
    Bands [alpha_blend r a; alpha_blend g a; alpha_blend b a].
Proof.
  intros Hpx Hr Hg Hb Ha. cbn [paste im_load Image_new band]. rewrite Hpx.
  cbn [paste_pixel lookup list_lookup default]. rewrite N2Z.id.
  by rewrite !BLEND8_onto_black.
Qed.

(** X13.  On an 8-bit RGBA raster the two functions agree on what is
    empty: a pixel that is not black in the raster handed to the JPEG
    encoder lies inside the box the extractor returns for its
    identifier. *)
Theorem jpeg_color_lies_in_a_box (Image_open : bytes -> result Image)
    (Image_convert : Image -> string -> result Image)
    (image_bytes : bytes) (image rgb : Image) (res : analysis) (x y : Z) :
  Image_open image_bytes = Ok image ->
  im_mode image = "RGBA" ->
  four_band image ->
  eight_bit image ->
  compute_bounding_boxes Image_open image_bytes = Ok res ->
  jpeg_raster Image_convert image = Ok rgb ->
  in_image image x y ->
  im_load rgb x y <> Bands [0; 0; 0]%N ->
  exists id x0 y0 x1 y1,
    pixel_id (im_load image x y) = Some id /\
    bboxes res !! id = Some [x0; y0; x1; y1] /\
    x0 <= x <= x1 /\ y0 <= y <= y1.
Proof.
  intros Hopen Hmode Hfour Hbits Hres Hraster Hin Hcolor.
  rewrite (compute_bounding_boxes_decoded _ _ _ Hopen) in Hres.
  apply scan_image_Ok in Hres as (_ & _ & Hbb).
  rewrite (jpeg_raster_rgba _ _ Hmode) in Hraster. injection Hraster as <-.
  destruct (Hfour x y Hin) as (r & g & b & a & Hpx).
  pose proof (Hbits x y _ Hin Hpx) as Hlt.
  apply Forall_cons in Hlt as [Hr Hlt]. apply Forall_cons in Hlt as [Hg Hlt].
  apply Forall_cons in Hlt as [Hb Hlt]. apply Forall_cons in Hlt as [Ha _].
  rewrite (paste_on_black_pixel image x y r g b a) in Hcolor by done.
  assert (Ha0 : a <> 0%N).
  { intros ->. by rewrite !alpha_blend_transparent in Hcolor. }
  destruct (identify_id_of_total r g b) as [id Hid].
  assert (Hown : owns image id x y).
  { split; [done|]. rewrite Hpx. by apply pixel_id_opaque. }
  destruct (boxes_correct_present image _ id x y Hbb Hown)
    as (box & Hlook & x0 & y0 & x1 & y1 & -> & Hall & _).
  exists id, x0, y0, x1, y1. split; [apply Hown|]. split; [done|].
  by apply Hall.
Qed.

Lemma jpeg_color_lies_in_a_box_witness :
  exists id x0 y0 x1 y1,
    pixel_id (im_load (two_pixel_image sample_color) 5 5) = Some id /\
    ({["5649426" := [5; 2; 10; 5]]} : gmap string (list Z)) !! id =
      Some [x0; y0; x1; y1] /\
    x0 <= 5 <= x1 /\ y0 <= 5 <= y1.
Proof.
  refine (jpeg_color_lies_in_a_box
            (fixed_decoder (two_pixel_image sample_color)) convert_luminance
            some_bytes (two_pixel_image sample_color)
            (paste (Image_new "RGB" (11, 6) [0; 0; 0]%N)
               (two_pixel_image sample_color)
               (band 3 (two_pixel_image sample_color)))
            {| image_width := 11; image_height := 6;
               bboxes := {["5649426" := [5; 2; 10; 5]]} |}
            5 5 eq_refl eq_refl (four_band_two_pixel 18 52 86 255)
            eight_bit_two_pixel_sample two_pixel_analysis eq_refl _ _).
  - unfold in_image. cbn. lia.
  - by vm_compute.
Defined.

(** * Entity resolution, the wizard and the life cycle *)

Lemma unique_ids_differ (serial : string) :
  serial +:+ "_printable_objects" <> serial +:+ "_pick_image".
Proof. intros Heq. by apply (inj (String.app serial)) in Heq. Qed.

Lemma last_match_snoc (uid : string) (registry : list RegistryEntry)
    (entry : RegistryEntry) :
  last_match uid (registry ++ [entry]) =
    if decide (unique_id entry = uid) then Some (entity_id entry)
    else last_match uid registry.
Proof.
  unfold last_match. rewrite filter_app, filter_cons, filter_nil.
  case_decide.
  - by rewrite last_snoc.
  - by rewrite app_nil_r.
Qed.

Lemma resolve_fold (serial : string) (registry : list RegistryEntry)
    (ids : option string * option string) :
  fold_left (resolve_step serial) registry ids =
    (match last_match (serial +:+ "_printable_objects") registry with
     | Some id => Some id
     | None => ids.1
     end,
     match last_match (serial +:+ "_pick_image") registry with
     | Some id => Some id
     | None => ids.2
     end).
Proof.
  induction registry as [|entry registry IH] using rev_ind.
  - by destruct ids.
  - rewrite fold_left_app, IH, !last_match_snoc. cbn [fold_left].
    unfold resolve_step. cbn [fst snd].
    pose proof (unique_ids_differ serial) as Hne.
    repeat case_decide; try done; congruence.
Qed.

(** X14.  Resolution keeps, for each of the two unique ids, the entity id
    of the last registry entry that carries it, and otherwise the id the
    sensor already had; it reports success exactly when both ids are set
    afterwards.  Ids once found are never forgotten, so a sensor that has
    resolved stays resolved whatever the registry holds later. *)
Theorem resolve_entities_keeps_last_match (registry : list RegistryEntry)
    (self : SensorEntity) :
  let resolved := (_resolve_entities registry self).1 in
  let self' := (_resolve_entities registry self).2 in
  _printable_objects_entity_id self' =
    match last_match (_serial self +:+ "_printable_objects") registry with
    | Some id => Some id
    | None => _printable_objects_entity_id self
    end /\
  _pick_image_entity_id (analysis_state self') =
    match last_match (_serial self +:+ "_pick_image") registry with
    | Some id => Some id
    | None => _pick_image_entity_id (analysis_state self)
    end /\
  (resolved = true <->
   is_Some (_printable_objects_entity_id self') /\
   is_Some (_pick_image_entity_id (analysis_state self'))) /\
  (is_Some (_printable_objects_entity_id self) ->
   is_Some (_pick_image_entity_id (analysis_state self)) ->
   resolved = true).
Proof.
  cbn zeta. unfold _resolve_entities. rewrite resolve_fold.
  cbn [fst snd _printable_objects_entity_id analysis_state
       set_pick_image_entity_id _pick_image_entity_id].
  split; [done|]. split; [done|]. split.
  - apply bool_decide_eq_true.
  - intros [po Hpo] [pi Hpi]. apply bool_decide_eq_true.
    rewrite Hpo, Hpi. split; by case_match.
Qed.

Lemma validate_fold_ids (serial : string) (registry : list RegistryEntry)
    (found : option RegistryEntry * option RegistryEntry) :
  fold_left (resolve_step serial) registry
    (entity_id <$> found.1, entity_id <$> found.2) =
  (entity_id <$> (fold_left (validate_step serial) registry found).1,
   entity_id <$> (fold_left (validate_step serial) registry found).2).
Proof.
  revert found. induction registry as [|entry registry IH]; intros found.
  - done.
  - cbn [fold_left]. rewrite <- IH. f_equal.
    unfold resolve_step, validate_step. cbn [fst snd].
    repeat case_decide; done.
Qed.

(** X15.  The wizard and the sensor decide alike.  Without input the
    wizard shows the empty form; a serial that is configured already
    aborts; otherwise the wizard creates the entry, with the stripped
    serial as its data, exactly when a fresh sensor with that serial
    resolves its two entities in the same registry, and else it shows the
    form with [entities_not_found]. *)
Theorem wizard_agrees_with_sensor (str_strip last_six : string -> string)
    (configured : list string) (registry : list RegistryEntry)
    (user_input : option string) :
  async_step_user str_strip last_six configured registry user_input =
    match user_input with
    | None => ShowForm []
    | Some raw =>
        if bool_decide (str_strip raw ∈ configured) then
          AbortFlow "already_configured"
        else if (_resolve_entities registry
                   (SensorEntity_init (str_strip raw))).1 then
          CreateEntry ("Bambu Plate " +:+ last_six (str_strip raw))
            (str_strip raw)
        else ShowForm [("base", "entities_not_found")]
    end.
Proof.
  unfold async_step_user. destruct user_input as [raw|]; [|done].
  case_bool_decide as Hconf; [done|].
  unfold _resolve_entities. cbn [fst].
  pose proof (validate_fold_ids (str_strip raw) registry (None, None)) as Hids.
  cbn [fst snd fmap option_fmap option_map] in Hids.
  cbn [SensorEntity_init _serial _printable_objects_entity_id analysis_state
       Sensor_init _pick_image_entity_id].
  rewrite Hids.
  destruct (fold_left (validate_step (str_strip raw)) registry (None, None))
    as [[p|] [q|]]; by cbn.
Qed.

Lemma wizard_agrees_with_sensor_witness :
  async_step_user sample_strip sample_last_six [] sample_registry
    (Some "  01P00A123456789 ") =
    CreateEntry "Bambu Plate 456789" "01P00A123456789".
Proof.
  exact (wizard_agrees_with_sensor sample_strip sample_last_six []
           sample_registry (Some "  01P00A123456789 ")).
Defined.

Lemma resolved_ids (registry : list RegistryEntry) (self : SensorEntity) :
  (_resolve_entities registry self).1 = true ->
  is_Some (_printable_objects_entity_id (_resolve_entities registry self).2) /\
  is_Some (_pick_image_entity_id
             (analysis_state (_resolve_entities registry self).2)).
Proof. unfold _resolve_entities. cbn. apply bool_decide_eq_true. Qed.

Lemma resolve_keeps_listener (registry : list RegistryEntry)
    (self : SensorEntity) :
  _unsub_any_state (_resolve_entities registry self).2 = _unsub_any_state self.
Proof. done. Qed.

Lemma cancel_listener_spec (self : SensorEntity) :
  _unsub_any_state (_cancel_any_state_listener self) = false /\
  _printable_objects_entity_id (_cancel_any_state_listener self) =
    _printable_objects_entity_id self /\
  analysis_state (_cancel_any_state_listener self) = analysis_state self.
Proof.
  unfold _cancel_any_state_listener.
  by destruct (_unsub_any_state self) eqn:Hon.
Qed.

Lemma subscribe_from_nothing (states : states_view) (self : SensorEntity)
    (host : Host) :
  _unsub_any_state self = false ->
  is_Some (_printable_objects_entity_id self) ->
  is_Some (_pick_image_entity_id (analysis_state self)) ->
  tracked host = [] -> scheduled host = [] ->
  exists host',
    _subscribe_to_printable_objects states self host = (Ok (), self, host') /\
    life_cycle_inv self host'.
Proof.
  intros Hoff [id Hid] Hpick Htracked Hsched.
  unfold _subscribe_to_printable_objects. rewrite Hid, Htracked, Hsched.
  cbn [tracked scheduled app].
  assert (Hbase : forall sched,
            (length sched <= 1)%nat -> (forall o, o ∈ sched -> o <> []) ->
            life_cycle_inv self {| tracked := [id]; scheduled := sched |}).
  { intros sched Hlen Hne. split; [done|]. split.
    { cbn. rewrite Hoff. split; done. }
    split; [|by split].
    intros id' Hin%list_elem_of_singleton. by subst. }
  destruct (states id) as [[[|entry rest]|]|]; eexists; (split; [done|]);
    apply Hbase; cbn; try lia; try (intros o Hin; by apply elem_of_nil in Hin).
  intros o Hin%list_elem_of_singleton. by subst.
Qed.

Lemma fire_state_changed_inv (registry : list RegistryEntry)
    (states : states_view) (self : SensorEntity) (host : Host) :
  life_cycle_inv self host ->
  scheduled host = [] \/ _unsub_any_state self = false ->
  exists self' host',
    fire_state_changed registry states self host = (Ok (), self', host') /\
    life_cycle_inv self' host' /\
    (scheduled host' = [] \/ _unsub_any_state self' = false).
Proof.
  intros Hinv Hsched. unfold fire_state_changed.
  destruct (_unsub_any_state self) eqn:Hon.
  2:{ exists self, host. split; [done|]. split; [done|]. by right. }
  destruct Hsched as [Hsched|?]; [|done].
  destruct Hinv as (_ & Htr & _).
  pose proof (proj1 Htr Hon) as Htracked.
  unfold _on_any_state_changed.
  pose proof (resolved_ids registry self) as Hids.
  pose proof (resolve_keeps_listener registry self) as Hkeep.
  destruct (_resolve_entities registry self) as [resolved self1].
  cbn [fst snd] in Hids, Hkeep.
  destruct resolved.
  - destruct (Hids eq_refl) as [Hpo Hpi].
    destruct (cancel_listener_spec self1) as (Hoff & Hpo' & Hst').
    destruct (subscribe_from_nothing states (_cancel_any_state_listener self1)
                host) as (host' & Hsub & Hinv');
      [done|by rewrite Hpo'|by rewrite Hst'|done|done|].
    exists (_cancel_any_state_listener self1), host'.
    split; [exact Hsub|]. split; [exact Hinv'|]. right. exact Hoff.
  - exists self1, host. split; [done|]. split; [|by left].
    split; [rewrite Htracked; cbn; lia|]. split; [by rewrite Hkeep, Hon|].
    rewrite Htracked, Hsched. split; [|split; [done|]].
    + intros id Hin. by apply elem_of_nil in Hin.
    + intros o Hin. by apply elem_of_nil in Hin.
Qed.

Lemma fire_all_inv (events : list (list RegistryEntry * states_view))
    (self : SensorEntity) (host : Host) :
  life_cycle_inv self host ->
  scheduled host = [] \/ _unsub_any_state self = false ->
  exists self' host',
    fire_all events self host = (Ok (), self', host') /\
    life_cycle_inv self' host'.
Proof.
  revert self host.
  induction events as [|[registry states] events IH]; intros self host Hinv Hs.
  - by exists self, host.
  - cbn [fire_all].
    destruct (fire_state_changed_inv registry states self host Hinv Hs)
      as (self1 & host1 & -> & Hinv1 & Hs1).
    by apply IH.
Qed.

(** X16.  However the registry and the states evolve while the sensor
    waits, its life cycle never raises (the assertion on subscribing
    cannot fail), it subscribes to the printable-objects entity at most
    once and only with both entities resolved, the global listener is
    registered exactly while it has not subscribed, and at most one
    initial pass is scheduled, never for an empty mapping. *)
Theorem life_cycle_subscribes_once (serial : string)
    (registry : list RegistryEntry) (states : states_view)
    (events : list (list RegistryEntry * states_view)) :
  exists self host,
    life_cycle serial registry states events = (Ok (), self, host) /\
    life_cycle_inv self host.
Proof.
  unfold life_cycle, async_added_to_hass.
  pose proof (resolved_ids registry (SensorEntity_init serial)) as Hids.
  pose proof (resolve_keeps_listener registry (SensorEntity_init serial)) as Hkeep.
  destruct (_resolve_entities registry (SensorEntity_init serial))
    as [resolved self1].
  cbn [fst snd SensorEntity_init _unsub_any_state] in Hids, Hkeep.
  destruct resolved; cbn [negb].
  - destruct (Hids eq_refl) as [Hpo Hpi].
    destruct (subscribe_from_nothing states self1
                {| tracked := []; scheduled := [] |})
      as (host' & -> & Hinv'); try done.
    apply fire_all_inv; [done|]. by right.
  - apply fire_all_inv; [|by left].
    split; [cbn; lia|]. split; [done|]. split; [|split; [done|]].
    + intros id Hin. by apply elem_of_nil in Hin.
    + intros o Hin. by apply elem_of_nil in Hin.
Qed.

(** * The image entity *)

(** X17.  After the check the image entity carries the slot's timestamp
    when the slot has one and keeps its own otherwise, so a timestamp is
    never lost; it writes its state exactly when its timestamp changed;
    and a second check against the same slot changes nothing. *)
Theorem check_jpeg_update_writes_on_change (updated : option Z)
    (self : ImageState) :
  let self' := _check_jpeg_update updated self in
  _last_updated self' =
    match updated with
    | Some t => Some t
    | None => _last_updated self
    end /\
  (is_Some (_last_updated self) -> is_Some (_last_updated self')) /\
  image_writes self' =
    (if decide (_last_updated self' = _last_updated self)
     then image_writes self else S (image_writes self)) /\
  _check_jpeg_update updated self' = self'.
Proof.
  cbn zeta. unfold _check_jpeg_update.
  destruct updated as [t|].
  - destruct (decide (Some t <> _last_updated self)) as [Hne|Heq].
    + cbn. split; [done|]. split; [by eexists|]. split.
      * by rewrite decide_False.
      * by rewrite decide_False by (intros H; by apply H).
    + apply dec_stable in Heq. split; [done|]. split; [done|]. split.
      * by rewrite decide_True.
      * by rewrite decide_False by (intros H; by apply H).
  - split; [done|]. split; [done|]. split; [|done]. by rewrite decide_True.
Qed.
